(** * The session coordinator of the collaborative editor (index.js)

    A shallow embedding of the WebSocket server of index.js: the presence
    registry [docs], the lock registry [locked], the broadcast router
    [wss.broadcast], the stream adapter's [_write], the per-connection
    [message] and [close] handlers and the HTTP control endpoints.

    Conventions of the embedding.
    - A plain JavaScript object used as a dictionary is a [gmap string].
      Document and user identifiers are strings other than the names of the
      members every object inherits from Object.prototype (for such a name a
      lookup in a plain object finds the inherited member); a registration
      with another identifier is outside the embedding, see [key_of].
    - [count] is an integer ([Z]); counts stay in the range where the
      arithmetic of JavaScript numbers is exact.
    - A handler is a computation in a small monad that threads the server
      state, may finish by a thrown exception, and records every call the
      handler makes on its environment (socket sends, stream pushes, log
      lines) in a trace.
    - The settings, the database set-up, the HTTP middleware and the
      stream's [error] and [end] listeners take no part in the presence,
      lock and broadcast logic and are not embedded. *)

From stdpp Require Import gmap strings list fin_maps.
From Stdlib Require Import ZArith Lia.

Local Open Scope Z_scope.
Set Warnings "-register-all".

(** ** JSON values *)

(** The result of [JSON.parse]. Of a number the program only ever asks whether
    it is zero, so the embedding keeps integer literals. *)
Inductive json : Type :=
  | JNull
  | JBool (b : bool)
  | JNum (n : Z)
  | JStr (s : string)
  | JArr (items : list json)
  | JObj (members : list (string * json)).

(** An own property of a parsed object; of a repeated key [JSON.parse] keeps
    the last value. [None] is [undefined]. *)
Fixpoint own_property (k : string) (members : list (string * json)) : option json :=
  match members with
  | [] => None
  | (k', v) :: rest =>
      match own_property k rest with
      | Some w => Some w
      | None => if String.eqb k k' then Some v else None
      end
  end.

(** What an inbound frame is to [JSON.parse]: text on which it throws, or
    text with the value it returns. *)
Inductive payload : Type :=
  | Malformed (raw : string)
  | Wellformed (value : json).

Definition JSON_parse (data : payload) : option json :=
  match data with
  | Malformed _ => None
  | Wellformed v => Some v
  end.

(** JavaScript truthiness of a property value. *)
Definition truthy (v : option json) : bool :=
  match v with
  | None => false
  | Some JNull => false
  | Some (JBool b) => b
  | Some (JNum n) => negb (n =? 0)
  | Some (JStr s) => negb (String.eqb s "")
  | Some (JArr _) => true
  | Some (JObj _) => true
  end.

(** ** Data model *)

(** A presence record, [docs[docId][userId]]. *)
Record presence : Type := Presence {
  name : option json;
  url : option json;
  count : Z;
  gravatar : option json
}.

Abbreviation users_map := (gmap string presence).
Abbreviation docs_map := (gmap string (gmap string presence)).
Abbreviation locked_map := (gmap string bool).

(** [client.userMeta]: the registration message attached to the socket, with
    the two members the server reads back from it. *)
Record userMeta_t : Type := UserMeta {
  docId : string;
  userId : string;
  data : json
}.

(** A socket object. [state] is the property [_write] compares with
    ['closed'] ([None] when the socket has no such property); [send_throws]
    says whether a call of [client.send] throws. *)
Record client : Type := Client {
  userMeta : option userMeta_t;
  state : option string;
  send_throws : bool
}.

Definition new_client : client :=
  {| userMeta := None; state := None; send_throws := false |}.

(** Messages sent to sockets (the argument of [JSON.stringify]). In [Meta],
    [users] is [docs[docId]], [None] when that is [undefined]. *)
Inductive message : Type :=
  | MsgLock
  | MsgMeta (users : option users_map)
  | MsgReload (contributors : json)
  | MsgUnlock (contributors : json)
  | MsgRedirect (redirect : string)
  | MsgDelete (redirect : string)
  | MsgChunk (chunk : json).

(** Lines written by [console.info]. *)
Inductive logline : Type :=
  | UserRegistered (d u : string)
  | ConnectionClosed (who : option (string * string)) (reason : Z)
  | DocumentReloaded (d : string)
  | DocumentLocked (d : string)
  | DocumentUnlocked (d : string)
  | DocumentRedirect (d r : string)
  | DocumentDelete (d r : string).

(** Calls a handler makes on its environment, in order. *)
Inductive effect : Type :=
  | Send (c : nat) (m : message)          (* client.send(m) is called on socket c *)
  | Push (c : nat) (chunk : option json)  (* stream.push; None is push(null) *)
  | EmitClose (c : nat)                   (* stream.emit('close') *)
  | WriteCallback (c : nat)               (* callback() of _write *)
  | Info (l : logline)                    (* console.info *)
  | Respond (d : string).                 (* res.send *)

(** The server: the two registries, the socket objects by identity, and
    [wss.clients], the sockets the server currently tracks. *)
Record server : Type := Server {
  docs : docs_map;
  locked : locked_map;
  sockets : gmap nat client;
  clients : list nat
}.

Definition initial : server :=
  {| docs := ∅; locked := ∅; sockets := ∅; clients := [] |}.

Definition socket (st : server) (c : nat) : client :=
  default new_client (sockets st !! c).

Definition set_docs (f : docs_map → docs_map) (st : server) : server :=
  {| docs := f (docs st); locked := locked st; sockets := sockets st; clients := clients st |}.

Definition set_locked (f : locked_map → locked_map) (st : server) : server :=
  {| docs := docs st; locked := f (locked st); sockets := sockets st; clients := clients st |}.

Definition set_userMeta (c : nat) (m : userMeta_t) (st : server) : server :=
  {| docs := docs st; locked := locked st;
     sockets := <[c := {| userMeta := Some m; state := state (socket st c);
                          send_throws := send_throws (socket st c) |}]> (sockets st);
     clients := clients st |}.

(** [locked[docId]] as a condition. *)
Definition is_locked (st : server) (d : string) : bool :=
  default false (locked st !! d).

(** ** The handler monad *)

Inductive error : Type := TypeError | ReferenceError | SendError.

(** How a computation ends. [Unsupported] marks an input outside the
    embedding (a registration whose identifiers are not plain strings). *)
Inductive completion (A : Type) : Type :=
  | Normal (a : A)
  | Throw (e : error)
  | Unsupported.
Arguments Normal {A} a.
Arguments Throw {A} e.
Arguments Unsupported {A}.

Record outcome (A : Type) : Type := Outcome {
  result : completion A;
  final : server;
  trace : list effect
}.
Arguments Outcome {A} _ _ _.
Arguments result {A} _.
Arguments final {A} _.
Arguments trace {A} _.

Definition M (A : Type) : Type := server → outcome A.

#[export] Instance M_ret : MRet M := λ A a st, Outcome (Normal a) st [].

(** The outcome [o] after the effects [tr]. *)
Definition prepend {A} (tr : list effect) (o : outcome A) : outcome A :=
  Outcome (result o) (final o) (tr ++ trace o).

#[export] Instance M_bind : MBind M := λ A B f m st,
  let o := m st in
  match result o with
  | Normal a => prepend (trace o) (f a (final o))
  | Throw e => Outcome (Throw e) (final o) (trace o)
  | Unsupported => Outcome Unsupported (final o) (trace o)
  end.

Definition gets {A} (f : server → A) : M A := λ st, Outcome (Normal (f st)) st [].
Definition modify (f : server → server) : M unit := λ st, Outcome (Normal tt) (f st) [].
Definition emit (e : effect) : M unit := λ st, Outcome (Normal tt) st [e].
Definition throw {A} (e : error) : M A := λ st, Outcome (Throw e) st [].
Definition unsupported {A} : M A := λ st, Outcome Unsupported st [].

(** [try { body } catch (e) { handler }] *)
Definition try_catch (body : M unit) (handler : error → M unit) : M unit := λ st,
  let o := body st in
  match result o with
  | Throw e => prepend (trace o) (handler e (final o))
  | _ => o
  end.

(** A loop over an array, in order ([async.each] with an iterator that calls
    back synchronously). *)
Fixpoint for_each {A} (f : A → M unit) (l : list A) : M unit :=
  match l with
  | [] => mret tt
  | x :: rest => f x;; for_each f rest
  end.

(** ** Socket and property primitives *)

(** [client.send(m)]: throws when the socket's send fails. *)
Definition send (c : nat) (m : message) : M unit :=
  emit (Send c m);;
  fails ← gets (λ st, send_throws (socket st c));
  if (fails : bool) then throw SendError else mret tt.

(** The value of [v.k] for a value other than [null]; the names the server
    reads are members of parsed objects only. *)
Definition property (v : json) (k : string) : option json :=
  match v with
  | JObj members => own_property k members
  | _ => None
  end.

(** [v.k]: reading a property of [null] throws a TypeError. *)
Definition member (v : json) (k : string) : M (option json) :=
  match v with
  | JNull => throw TypeError
  | _ => mret (property v k)
  end.

(** The names [docs[k]] and [locked[k]] find on every object, through
    Object.prototype. *)
Definition inherited (k : string) : bool :=
  existsb (String.eqb k)
    ["constructor"; "__proto__"; "hasOwnProperty"; "isPrototypeOf";
     "propertyIsEnumerable"; "toLocaleString"; "toString"; "valueOf";
     "__defineGetter__"; "__defineSetter__"; "__lookupGetter__"; "__lookupSetter__"].

(** An identifier used as a property key of the registries: a string that
    names no inherited member. *)
Definition key_of (v : option json) : M string :=
  match v with
  | Some (JStr s) => if inherited s then unsupported else mret s
  | _ => unsupported
  end.

(** ** The broadcast router: [wss.broadcast] *)

Definition broadcast (d : string) (m : message) : M unit :=
  cs ← gets clients;
  for_each (λ c,
    um ← gets (λ st, userMeta (socket st c));
    match um with
    | Some meta =>
        if String.eqb (docId meta) d
        then try_catch (send c m) (λ _, mret tt)
        else mret tt
    | None => mret tt
    end) cs.

(** ** The connection adapter: [stream._write] *)

Definition _write (c : nat) (chunk : json) : M unit :=
  s ← gets (λ st, state (socket st c));
  (if bool_decide (s ≠ Some "closed")
   then try_catch (send c (MsgChunk chunk)) (λ _, mret tt)
   else mret tt);;
  emit (WriteCallback c).

(** ** The presence registry *)

(** The update of [docs] in the registration branch. *)
Definition register (d u : string) (nm ur gr : option json) (ds : docs_map) : docs_map :=
  let ds1 := match ds !! d with None => <[d := ∅]> ds | Some _ => ds end in
  let users : users_map := default ∅ (ds1 !! d) in
  match users !! u with
  | None => <[d := <[u := Presence nm ur 1 gr]> users]> ds1
  | Some r =>
      <[d := <[u := Presence (name r) (url r) (count r + 1) (gravatar r)]> users]> ds1
  end.

(** The update of [docs] in the close handler. *)
Definition release (d u : string) (ds : docs_map) : docs_map :=
  match ds !! d with
  | None => ds
  | Some users =>
      match users !! u with
      | None => ds
      | Some r =>
          let r' := Presence (name r) (url r) (count r - 1) (gravatar r) in
          if count r' =? 0 then
            let users' := delete u users in
            if bool_decide (size users' = 0%nat)
            then delete d ds
            else <[d := users']> ds
          else <[d := <[u := r']> users]> ds
      end
  end.

(** ** The connection lifecycle: the [message] and [close] handlers *)

(** The branch taken when [data.registration] is truthy. *)
Definition registration_branch (c : nat) (msg : json) : M unit :=
  d0 ← member msg "docId";
  u0 ← member msg "userId";
  d ← key_of d0;
  u ← key_of u0;
  emit (Info (UserRegistered d u));;
  nm ← member msg "userName";
  ur ← member msg "userUrl";
  gr ← member msg "userGravatar";
  modify (set_docs (register d u nm ur gr));;
  modify (set_userMeta c (UserMeta d u msg));;
  users ← gets (λ st, docs st !! d);
  broadcast d (MsgMeta users);;
  lk ← gets (λ st, is_locked st d);
  if (lk : bool) then try_catch (send c MsgLock) (λ _, mret tt) else mret tt.

(** The handler past its lock check. The [catch] block of the parse names an
    undeclared variable, [message], so that evaluating it throws a
    ReferenceError before any diagnostic is sent. *)
Definition dispatch (c : nat) (p : payload) : M unit :=
  match JSON_parse p with
  | None => throw ReferenceError
  | Some msg =>
      registration ← member msg "registration";
      if truthy registration
      then registration_branch c msg
      else emit (Push c (Some msg))
  end.

(** [client.on('message', ...)]: the lock check, then the rest. *)
Definition on_message (c : nat) (p : payload) : M unit :=
  um ← gets (λ st, userMeta (socket st c));
  match um with
  | Some meta =>
      lk ← gets (λ st, is_locked st (docId meta));
      if (lk : bool) then broadcast (docId meta) MsgLock else dispatch c p
  | None => dispatch c p
  end.

(** [client.on('close', ...)]. *)
Definition on_close (c : nat) (reason : Z) : M unit :=
  um ← gets (λ st, userMeta (socket st c));
  emit (Info (ConnectionClosed ((λ meta, (docId meta, userId meta)) <$> um) reason));;
  match um with
  | Some meta =>
      modify (set_docs (release (docId meta) (userId meta)));;
      users ← gets (λ st, docs st !! docId meta);
      broadcast (docId meta) (MsgMeta users)
  | None => mret tt
  end;;
  emit (Push c None);;
  emit (EmitClose c).

(** ** The control endpoints *)

Definition post_reload (id : string) (body : json) : M unit :=
  broadcast id (MsgReload body);;
  emit (Info (DocumentReloaded id));;
  emit (Respond (id +:+ " was reloaded.")).

Definition post_lock (id : string) : M unit :=
  modify (set_locked (<[id := true]>));;
  broadcast id MsgLock;;
  emit (Info (DocumentLocked id));;
  emit (Respond (id +:+ " was locked.")).

Definition post_unlock (id : string) (body : json) : M unit :=
  modify (set_locked (delete id));;
  broadcast id (MsgUnlock body);;
  emit (Info (DocumentUnlocked id));;
  emit (Respond (id +:+ " was unlocked.")).

Definition post_redirect (id redirect : string) : M unit :=
  broadcast id (MsgRedirect redirect);;
  emit (Info (DocumentRedirect id redirect));;
  emit (Respond (id +:+ " was redirected to " +:+ redirect)).

Definition post_delete (id redirect : string) : M unit :=
  broadcast id (MsgDelete redirect);;
  emit (Info (DocumentDelete id redirect));;
  emit (Respond (id +:+ " was deleted and redirected to " +:+ redirect)).

(** ** Runs of the server *)

(** What happens to the server. [Connection] and [Close] are the events of
    the socket library, which tracks a socket in [wss.clients] from its
    connection until its close; [Transport] is a change of a socket's
    condition; [EngineWrite] is the synchronization engine writing a record
    to a socket's stream. *)
Inductive event : Type :=
  | Connection (c : nat)
  | Transport (c : nat) (s : option string) (fails : bool)
  | Message (c : nat) (p : payload)
  | Close (c : nat) (reason : Z)
  | EngineWrite (c : nat) (chunk : json)
  | PostReload (id : string) (body : json)
  | PostLock (id : string)
  | PostUnlock (id : string) (body : json)
  | PostRedirect (id redirect : string)
  | PostDelete (id redirect : string).

(** The library creates the socket object, without [userMeta], and adds it to
    [wss.clients]. *)
Definition connect (c : nat) (st : server) : server :=
  {| docs := docs st; locked := locked st;
     sockets := <[c := new_client]> (sockets st);
     clients := clients st ++ [c] |}.

(** The library's own close listener, which removes the socket from
    [wss.clients]; a run takes it before the listener of the application.
    The socket object stays. *)
Definition untrack (c : nat) (st : server) : server :=
  {| docs := docs st; locked := locked st; sockets := sockets st;
     clients := filter (λ c', c' ≠ c) (clients st) |}.

(** The condition of the transport of socket [c] changes; its [userMeta]
    stays. *)
Definition set_transport (c : nat) (s : option string) (fails : bool) (st : server) : server :=
  {| docs := docs st; locked := locked st;
     sockets := <[c := {| userMeta := userMeta (socket st c); state := s;
                          send_throws := fails |}]> (sockets st);
     clients := clients st |}.

(** The handler the server runs on an event. *)
Definition step (e : event) : M unit :=
  match e with
  | Connection c => modify (connect c)
  | Transport c s fails => modify (set_transport c s fails)
  | Message c p => on_message c p
  | Close c reason => modify (untrack c);; on_close c reason
  | EngineWrite c chunk => _write c chunk
  | PostReload id body => post_reload id body
  | PostLock id => post_lock id
  | PostUnlock id body => post_unlock id body
  | PostRedirect id redirect => post_redirect id redirect
  | PostDelete id redirect => post_delete id redirect
  end.

(** An event the environment can deliver in a state: a connection is a new
    socket object; messages and the close come from a tracked socket (so a
    socket closes once and is silent afterwards). *)
Definition enabled (e : event) (st : server) : bool :=
  match e with
  | Connection c => bool_decide (sockets st !! c = None)
  | Transport c _ _ => bool_decide (is_Some (sockets st !! c))
  | Message c _ => bool_decide (c ∈ clients st)
  | Close c _ => bool_decide (c ∈ clients st)
  | EngineWrite c _ => bool_decide (is_Some (sockets st !! c))
  | _ => true
  end.

(** The step stayed inside the embedding. *)
Definition supported {A} (r : completion A) : bool :=
  match r with Unsupported => false | _ => true end.

(** The server runs its handlers one event at a time; the state a handler
    leaves, also one that ends by throwing, is the state the next one finds.
    The result is the last state and the effects of all handlers in order. *)
Fixpoint run (es : list event) (st : server) : server * list effect :=
  match es with
  | [] => (st, [])
  | e :: rest =>
      let o := step e st in
      let r := run rest (final o) in
      (r.1, trace o ++ r.2)
  end.

(** Every event of the run is one the environment can deliver in the state
    it finds, and its handler stays inside the embedding. *)
Fixpoint valid_run (es : list event) (st : server) : bool :=
  match es with
  | [] => true
  | e :: rest =>
      enabled e st && supported (result (step e st)) && valid_run rest (final (step e st))
  end.

(** A registration message as the client library sends it. *)
Definition registration_message (d u : string) : json :=
  JObj [("registration", JBool true); ("docId", JStr d); ("userId", JStr u);
        ("userName", JStr "Ann"); ("userUrl", JStr "/ann"); ("userGravatar", JStr "g")].

(** ** Observations on states and traces *)

(** Socket [c] is attached to document [d]: the test of [wss.broadcast]. *)
Definition attached (st : server) (d : string) (c : nat) : bool :=
  match userMeta (socket st c) with
  | Some meta => String.eqb (docId meta) d
  | None => false
  end.

(** The sockets [wss.broadcast] addresses for [d], in the order of
    [wss.clients]. *)
Definition audience (st : server) (d : string) : list nat :=
  List.filter (attached st d) (clients st).

(** The presence record of user [u] on document [d]. *)
Definition record_of (ds : docs_map) (d u : string) : option presence :=
  ds !! d ≫= λ users : users_map, users !! u.

(** Its count, 0 when there is no record. *)
Definition count_of (ds : docs_map) (d u : string) : Z :=
  from_option count 0 (record_of ds d u).

Fixpoint tally (p : effect → bool) (tr : list effect) : Z :=
  match tr with
  | [] => 0
  | e :: rest => (if p e then 1 else 0) + tally p rest
  end.

(** The log line of a registration for [(d, u)]. *)
Definition is_register (d u : string) (e : effect) : bool :=
  match e with
  | Info (UserRegistered d' u') => String.eqb d' d && String.eqb u' u
  | _ => false
  end.

(** The log line of the close of a session registered for [(d, u)]. *)
Definition is_release (d u : string) (e : effect) : bool :=
  match e with
  | Info (ConnectionClosed (Some (d', u')) _) => String.eqb d' d && String.eqb u' u
  | _ => false
  end.

Definition is_send (e : effect) : bool :=
  match e with Send _ _ => true | _ => false end.

Definition is_push (e : effect) : bool :=
  match e with Push _ _ => true | _ => false end.

(** ** States, transitions and the invariant *)

(** The record [r] with [k] added to its count. *)
Definition bump (k : Z) (r : presence) : presence :=
  Presence (name r) (url r) (count r + k) (gravatar r).

(** [msg] is a registration message for document [d] and user [u]. *)
Definition registers_as (msg : json) (d u : string) : Prop :=
  truthy (property msg "registration") = true ∧
  (property msg "docId" = Some (JStr d) ∧ inherited d = false) ∧
  (property msg "userId" = Some (JStr u) ∧ inherited u = false).

(** The state a registration of socket [c] for [(d, u)] leaves. *)
Definition registered (c : nat) (msg : json) (d u : string) (st : server) : server :=
  set_userMeta c (UserMeta d u msg)
    (set_docs (register d u (property msg "userName") (property msg "userUrl")
                 (property msg "userGravatar")) st).

(** Socket [c] is attached to the pair [(d, u)]. *)
Definition attached_to (st : server) (d u : string) (c : nat) : bool :=
  match userMeta (socket st c) with
  | Some meta => String.eqb (docId meta) d && String.eqb (userId meta) u
  | None => false
  end.

(** The tracked sockets attached to [(d, u)]. *)
Definition open_sessions (st : server) (d u : string) : Z :=
  Z.of_nat (length (List.filter (attached_to st d u) (clients st))).

(** By how much the count of [(d, u)] exceeds the tracked sockets attached to
    the pair: the registrations nobody is left to release. *)
Definition surplus (st : server) (d u : string) : Z :=
  count_of (docs st) d u - open_sessions st d u.

(** What holds of every state the server reaches: no document entry is empty,
    every stored count is at least 1 and at least the number of tracked
    sockets attached to its pair, and [wss.clients] lists distinct, existing
    sockets. *)
Record invariant (st : server) : Prop := {
  inv_nonempty : ∀ d users, docs st !! d = Some users → users ≠ ∅;
  inv_positive : ∀ d u r, record_of (docs st) d u = Some r → 1 ≤ count r;
  inv_sessions : ∀ d u, open_sessions st d u ≤ count_of (docs st) d u;
  inv_nodup : NoDup (clients st);
  inv_tracked : ∀ c, c ∈ clients st → is_Some (sockets st !! c)
}.

(** An effect that is neither a registration line nor the close line of a
    registered session. *)
Definition quiet (e : effect) : bool :=
  match e with
  | Info (UserRegistered _ _) => false
  | Info (ConnectionClosed (Some _) _) => false
  | _ => true
  end.

(** [st'] has the presence registry, the tracked sockets and the attachments
    of [st]. *)
Record same_presence (st st' : server) : Prop := {
  sp_docs : docs st' = docs st;
  sp_clients : clients st' = clients st;
  sp_meta : ∀ c, userMeta (socket st' c) = userMeta (socket st c);
  sp_sockets : ∀ c, is_Some (sockets st !! c) → is_Some (sockets st' !! c)
}.

(** The five ways in which a step can change the registry. *)
Inductive moves (st : server) : outcome unit → Prop :=
  | moves_quiet r st' tr :
      same_presence st st' → Forall (λ e, quiet e = true) tr →
      moves st (Outcome r st' tr)
  | moves_connect c :
      sockets st !! c = None →
      moves st (Outcome (Normal tt) (connect c st) [])
  | moves_register c msg d u tr :
      Forall (λ e, quiet e = true) tr →
      moves st (Outcome (Normal tt) (registered c msg d u st)
                  (Info (UserRegistered d u) :: tr))
  | moves_release c meta reason tr :
      c ∈ clients st → userMeta (socket st c) = Some meta →
      Forall (λ e, quiet e = true) tr →
      moves st (Outcome (Normal tt)
                  (set_docs (release (docId meta) (userId meta)) (untrack c st))
                  (Info (ConnectionClosed (Some (docId meta, userId meta)) reason) :: tr))
  | moves_leave c tr :
      c ∈ clients st → userMeta (socket st c) = None →
      Forall (λ e, quiet e = true) tr →
      moves st (Outcome (Normal tt) (untrack c st) tr).

(** ** Scenarios and the wording of the specification *)

(** User A registering on document [d]. *)
Definition ann (d : string) : payload := Wellformed (registration_message d "A").


(** One tab, then a second tab, of user A on d1. *)
Definition one_tab : list event := [Connection 1; Message 1 (ann "d1")].
Definition two_tabs : list event := one_tab ++ [Connection 2; Message 2 (ann "d1")].

Definition after (es : list event) : server := (run es initial).1.

(** The order of the specification's registration step: the direct lock
    notice to socket [c] comes before every delivery of the presence
    snapshot. *)
Definition lock_notice_first (c : nat) (tr : list effect) : Prop :=
  ∀ (i j : nat) c' users,
    tr !! i = Some (Send c MsgLock) →
    tr !! j = Some (Send c' (MsgMeta users)) →
    (i < j)%nat.


(** ** Notions for the further properties *)

(** The lock check of the message handler stops the messages of socket [c]. *)
Definition gated (st : server) (c : nat) : bool :=
  match userMeta (socket st c) with
  | Some meta => is_locked st (docId meta)
  | None => false
  end.



(** The end-of-stream signal of socket [c]'s stream, [stream.push(null)]. *)
Definition is_eof (c : nat) (e : effect) : bool :=
  match e with
  | Push c' None => Nat.eqb c' c
  | _ => false
  end.

(** The display metadata of a presence record. *)
Definition display (r : presence) : option json * option json * option json :=
  (name r, url r, gravatar r).

(** Socket [c] has been closed: its object exists and the server tracks it
    no more. *)
Definition closed (st : server) (c : nat) : bool :=
  bool_decide (is_Some (sockets st !! c) ∧ c ∉ clients st).

(** The document id and the message of a control request. *)
Definition endpoint_message (e : event) : option (string * message) :=
  match e with
  | PostReload id body => Some (id, MsgReload body)
  | PostLock id => Some (id, MsgLock)
  | PostUnlock id body => Some (id, MsgUnlock body)
  | PostRedirect id redirect => Some (id, MsgRedirect redirect)
  | PostDelete id redirect => Some (id, MsgDelete redirect)
  | _ => None
  end.

(** ** The settings and the error reporter *)

(** [process.env]: the variables that are set, with their values. *)
Abbreviation env_map := (gmap string string).

(** Truthiness of [process.env.K]: set, and not the empty string. *)
Definition env_truthy (v : option string) : bool :=
  match v with
  | Some s => negb (String.eqb s "")
  | None => false
  end.

(** [process.env.K || dflt] for a text default. *)
Definition env_or (v : option string) (dflt : string) : string :=
  match v with
  | Some s => if String.eqb s "" then dflt else s
  | None => dflt
  end.

(** The port is the text of the variable, or the number 7007. *)
Inductive port_value : Type :=
  | PortText (s : string)
  | PortNumber (n : Z).

Record settings_t : Type := Settings {
  debug : bool;
  host : string;
  port : port_value;
  corsAllowOrigin : string;
  dbUrl : string;
  sentryDSN : option string
}.

Definition settings (env : env_map) : settings_t :=
  {| debug := if env_truthy (env !! "SHAREJS_DEBUG")
              then bool_decide (env !! "SHAREJS_DEBUG" = Some "true")
              else true;
     host := env_or (env !! "SHAREJS_SERVER_HOST") "localhost";
     port := if env_truthy (env !! "SHAREJS_SERVER_PORT")
             then PortText (default "" (env !! "SHAREJS_SERVER_PORT"))
             else PortNumber 7007;
     corsAllowOrigin := env_or (env !! "SHAREJS_CORS_ALLOW_ORIGIN") "http://localhost:5000";
     dbUrl := env_or (env !! "SHAREJS_DB_URL") "mongodb://localhost:27017/sharejs";
     sentryDSN := env !! "SHAREJS_SENTRY_DSN" |}.

(** What the start of the server does with the error reporter. *)
Inductive sentry_action : Type :=
  | NewClient (dsn : string)        (* new raven.Client(dsn) *)
  | PatchGlobal                     (* the handler that exits the process *)
  | ExpressMiddleware (dsn : string).

Definition sentry_startup (s : settings_t) : list sentry_action :=
  (if env_truthy (sentryDSN s)
   then NewClient (default "" (sentryDSN s))
        :: (if negb (debug s) then [PatchGlobal] else [])
   else [])
  ++ (if env_truthy (sentryDSN s)
      then [ExpressMiddleware (default "" (sentryDSN s))]
      else []).

(** * Properties *)

(** ** Equations of the monad *)

Lemma prepend_nil {A} (o : outcome A) : prepend [] o = o.
Proof. destruct o; reflexivity. Qed.

Lemma prepend_prepend {A} tr1 tr2 (o : outcome A) :
  prepend tr1 (prepend tr2 o) = prepend (tr1 ++ tr2) o.
Proof. unfold prepend; simpl. by rewrite app_assoc. Qed.

Lemma bind_outcome {A B} (m : M A) (k : A → M B) st a st' tr :
  m st = Outcome (Normal a) st' tr → (m ≫= k) st = prepend tr (k a st').
Proof. intros H. unfold mbind, M_bind. rewrite H. reflexivity. Qed.

Lemma bind_ret {A B} (a : A) (k : A → M B) st : (mret a ≫= k) st = k a st.
Proof. erewrite bind_outcome by reflexivity. apply prepend_nil. Qed.

Lemma bind_gets {A B} (f : server → A) (k : A → M B) st :
  (gets f ≫= k) st = k (f st) st.
Proof. erewrite bind_outcome by reflexivity. apply prepend_nil. Qed.

Lemma bind_modify {B} (f : server → server) (k : unit → M B) st :
  (modify f ≫= k) st = k tt (f st).
Proof. erewrite bind_outcome by reflexivity. apply prepend_nil. Qed.

Lemma bind_emit {B} (e : effect) (k : unit → M B) st :
  (emit e ≫= k) st = prepend [e] (k tt st).
Proof. erewrite bind_outcome by reflexivity. reflexivity. Qed.

Lemma bind_throw {A B} (e : error) (k : A → M B) st :
  (throw e ≫= k) st = Outcome (Throw e) st [].
Proof. reflexivity. Qed.

Lemma bind_unsupported {A B} (k : A → M B) st :
  (unsupported ≫= k) st = Outcome Unsupported st [].
Proof. reflexivity. Qed.

(** ** The broadcast router *)

Lemma send_caught c m st :
  try_catch (send c m) (λ _, mret tt) st = Outcome (Normal tt) st [Send c m].
Proof.
  unfold try_catch, send. rewrite bind_emit, bind_gets.
  destruct (send_throws (socket st c)); reflexivity.
Qed.

Lemma broadcast_loop d m st cs :
  for_each (λ c,
    um ← gets (λ st, userMeta (socket st c));
    match um with
    | Some meta =>
        if String.eqb (docId meta) d
        then try_catch (send c m) (λ _, mret tt)
        else mret tt
    | None => mret tt
    end) cs st
  = Outcome (Normal tt) st (map (λ c, Send c m) (List.filter (attached st d) cs)).
Proof.
  induction cs as [|c cs IH]; [reflexivity|].
  cbn [for_each List.filter]. unfold attached at 1.
  destruct (userMeta (socket st c)) as [meta|] eqn:Hmeta;
    [destruct (String.eqb (docId meta) d) eqn:Hd|].
  - erewrite bind_outcome; cycle 1.
    { rewrite bind_gets, Hmeta, Hd. apply send_caught. }
    rewrite IH. reflexivity.
  - erewrite bind_outcome; cycle 1.
    { rewrite bind_gets, Hmeta, Hd. reflexivity. }
    rewrite IH. reflexivity.
  - erewrite bind_outcome; cycle 1.
    { rewrite bind_gets, Hmeta. reflexivity. }
    rewrite IH. reflexivity.
Qed.

Lemma broadcast_eq d m st :
  broadcast d m st = Outcome (Normal tt) st (map (λ c, Send c m) (audience st d)).
Proof. unfold broadcast. rewrite bind_gets. apply broadcast_loop. Qed.

Lemma bind_broadcast {B} d m (k : unit → M B) st :
  (broadcast d m ≫= k) st = prepend (map (λ c, Send c m) (audience st d)) (k tt st).
Proof. erewrite bind_outcome by apply broadcast_eq. reflexivity. Qed.

Lemma audience_set_docs f st d : audience (set_docs f st) d = audience st d.
Proof. reflexivity. Qed.

Lemma audience_set_locked f st d : audience (set_locked f st) d = audience st d.
Proof. reflexivity. Qed.

Lemma elem_of_audience st d c :
  c ∈ audience st d ↔
  c ∈ clients st ∧ ∃ meta, userMeta (socket st c) = Some meta ∧ docId meta = d.
Proof.
  unfold audience. rewrite !list_elem_of_In, filter_In, <- list_elem_of_In.
  unfold attached. split.
  - intros [Hc Ha]. split; [done|].
    destruct (userMeta (socket st c)) as [meta|]; [|done].
    exists meta. split; [done|]. by apply String.eqb_eq.
  - intros [Hc (meta & -> & <-)]. split; [done|]. apply String.eqb_refl.
Qed.

(** ** The connection adapter *)

Lemma _write_eq c chunk st :
  _write c chunk st =
  Outcome (Normal tt) st
    ((if bool_decide (state (socket st c) ≠ Some "closed")
      then [Send c (MsgChunk chunk)] else []) ++ [WriteCallback c]).
Proof.
  unfold _write. rewrite bind_gets.
  destruct (bool_decide (state (socket st c) ≠ Some "closed")).
  - erewrite bind_outcome by apply send_caught. reflexivity.
  - rewrite bind_ret. reflexivity.
Qed.

(** ** The handlers, case by case *)

Lemma member_eq msg k : msg ≠ JNull → member msg k = mret (property msg k).
Proof. destruct msg; congruence || reflexivity. Qed.

Lemma registers_as_not_null msg d u : registers_as msg d u → msg ≠ JNull.
Proof. intros (H & _ & _) ->. discriminate H. Qed.

Lemma is_locked_registered c msg d u st d' :
  is_locked (registered c msg d u st) d' = is_locked st d'.
Proof. reflexivity. Qed.

Lemma registration_branch_eq c msg d u st :
  registers_as msg d u →
  registration_branch c msg st =
  let st' := registered c msg d u st in
  Outcome (Normal tt) st'
    (Info (UserRegistered d u)
     :: map (λ c', Send c' (MsgMeta (docs st' !! d))) (audience st' d)
     ++ (if is_locked st d then [Send c MsgLock] else [])).
Proof.
  intros Hreg. pose proof (registers_as_not_null _ _ _ Hreg) as Hnull.
  destruct Hreg as (_ & [Hd Hd'] & [Hu Hu']).
  unfold registration_branch. rewrite !member_eq by done.
  rewrite !bind_ret, Hd, Hu. cbn [key_of]. rewrite Hd', Hu', !bind_ret, bind_emit.
  rewrite !bind_ret, !bind_modify, bind_gets, bind_broadcast, bind_gets.
  fold (registered c msg d u st). rewrite is_locked_registered.
  destruct (is_locked st d).
  - rewrite send_caught. reflexivity.
  - unfold prepend; simpl. by rewrite app_nil_r.
Qed.

Lemma dispatch_registration c msg d u st :
  registers_as msg d u →
  dispatch c (Wellformed msg) st = registration_branch c msg st.
Proof.
  intros Hreg. pose proof (registers_as_not_null _ _ _ Hreg) as Hnull.
  destruct Hreg as (Ht & _). unfold dispatch. cbn [JSON_parse].
  rewrite member_eq, bind_ret, Ht by done. reflexivity.
Qed.

Lemma dispatch_other c msg st :
  msg ≠ JNull → truthy (property msg "registration") = false →
  dispatch c (Wellformed msg) st = Outcome (Normal tt) st [Push c (Some msg)].
Proof.
  intros Hnull Ht. unfold dispatch. cbn [JSON_parse].
  rewrite member_eq, bind_ret, Ht by done. reflexivity.
Qed.

Lemma dispatch_malformed c raw st :
  dispatch c (Malformed raw) st = Outcome (Throw ReferenceError) st [].
Proof. reflexivity. Qed.

Lemma dispatch_null c st :
  dispatch c (Wellformed JNull) st = Outcome (Throw TypeError) st [].
Proof. reflexivity. Qed.

Lemma on_message_locked c p meta st :
  userMeta (socket st c) = Some meta → is_locked st (docId meta) = true →
  on_message c p st =
  Outcome (Normal tt) st (map (λ c', Send c' MsgLock) (audience st (docId meta))).
Proof.
  intros Hm Hl. unfold on_message. rewrite bind_gets, Hm, bind_gets, Hl.
  apply broadcast_eq.
Qed.

Lemma on_message_unlocked c p meta st :
  userMeta (socket st c) = Some meta → is_locked st (docId meta) = false →
  on_message c p st = dispatch c p st.
Proof.
  intros Hm Hl. unfold on_message. by rewrite bind_gets, Hm, bind_gets, Hl.
Qed.

Lemma on_message_unregistered c p st :
  userMeta (socket st c) = None → on_message c p st = dispatch c p st.
Proof. intros Hm. unfold on_message. by rewrite bind_gets, Hm. Qed.

Lemma on_close_unregistered c reason st :
  userMeta (socket st c) = None →
  on_close c reason st =
  Outcome (Normal tt) st [Info (ConnectionClosed None reason); Push c None; EmitClose c].
Proof.
  intros Hm. unfold on_close. rewrite bind_gets, Hm. cbn [fmap option_fmap option_map].
  rewrite bind_emit, bind_ret, bind_emit. reflexivity.
Qed.

Lemma on_close_registered c reason meta st :
  userMeta (socket st c) = Some meta →
  on_close c reason st =
  let st' := set_docs (release (docId meta) (userId meta)) st in
  Outcome (Normal tt) st'
    (Info (ConnectionClosed (Some (docId meta, userId meta)) reason)
     :: map (λ c', Send c' (MsgMeta (docs st' !! docId meta))) (audience st (docId meta))
     ++ [Push c None; EmitClose c]).
Proof.
  intros Hm. unfold on_close. rewrite bind_gets, Hm. cbn [fmap option_fmap option_map].
  rewrite bind_emit.
  erewrite (bind_outcome (modify _ ≫= _)); cycle 1.
  { rewrite bind_modify, bind_gets. apply broadcast_eq. }
  rewrite bind_emit. reflexivity.
Qed.

(** ** The presence registry *)

Lemma record_of_register_eq d u nm ur gr (ds : docs_map) :
  record_of (register d u nm ur gr ds) d u =
  Some (match record_of ds d u with
        | Some r => bump 1 r
        | None => Presence nm ur 1 gr
        end).
Proof.
  unfold record_of, register, bump.
  destruct (ds !! d) as [users|] eqn:Hd; simpl.
  - rewrite Hd; simpl. destruct (users !! u) eqn:Hu; simpl;
      rewrite lookup_insert_eq; simpl; by rewrite lookup_insert_eq.
  - rewrite lookup_insert_eq; simpl. rewrite lookup_empty.
    rewrite lookup_insert_eq; simpl. by rewrite lookup_insert_eq.
Qed.

Lemma record_of_register_ne d u nm ur gr (ds : docs_map) d' u' :
  (d', u') ≠ (d, u) →
  record_of (register d u nm ur gr ds) d' u' = record_of ds d' u'.
Proof.
  intros Hne. unfold record_of, register.
  destruct (decide (d' = d)) as [->|Hd'].
  - assert (u' ≠ u) as Hu' by congruence.
    destruct (ds !! d) as [users|] eqn:Hd; simpl.
    + rewrite Hd; simpl. destruct (users !! u) eqn:Hu; simpl;
        rewrite lookup_insert_eq; simpl; by rewrite lookup_insert_ne.
    + rewrite lookup_insert_eq; simpl. rewrite lookup_empty.
      rewrite lookup_insert_eq; simpl. rewrite lookup_insert_ne by done.
      by rewrite lookup_empty.
  - destruct (ds !! d) as [users|] eqn:Hd; simpl.
    + rewrite Hd; simpl. destruct (users !! u); simpl; by rewrite lookup_insert_ne.
    + rewrite lookup_insert_eq; simpl. rewrite lookup_empty.
      by rewrite !lookup_insert_ne.
Qed.

Lemma size_zero_lookup (users : users_map) u' :
  size users = 0%nat → users !! u' = None.
Proof. intros H. apply map_size_empty_iff in H. subst. apply lookup_empty. Qed.

Lemma record_of_release_eq d u (ds : docs_map) :
  record_of (release d u ds) d u =
  match record_of ds d u with
  | Some r => if count r - 1 =? 0 then None else Some (bump (-1) r)
  | None => None
  end.
Proof.
  unfold record_of, release, bump.
  destruct (ds !! d) as [users|] eqn:Hd; simpl; [|by rewrite Hd].
  destruct (users !! u) as [r|] eqn:Hu; simpl; [|by rewrite Hd; simpl].
  destruct (count r - 1 =? 0).
  - case_bool_decide.
    + by rewrite lookup_delete_eq.
    + rewrite lookup_insert_eq; simpl. by rewrite lookup_delete_eq.
  - rewrite lookup_insert_eq; simpl. by rewrite lookup_insert_eq.
Qed.

Lemma record_of_release_ne d u (ds : docs_map) d' u' :
  (d', u') ≠ (d, u) →
  record_of (release d u ds) d' u' = record_of ds d' u'.
Proof.
  intros Hne. unfold record_of, release.
  destruct (ds !! d) as [users|] eqn:Hd; simpl; [|done].
  destruct (users !! u) as [r|] eqn:Hu; simpl; [|done].
  destruct (decide (d' = d)) as [->|Hd'].
  - assert (u' ≠ u) as Hu' by congruence. rewrite Hd; simpl.
    destruct (count r - 1 =? 0).
    + case_bool_decide as Hsz.
      * rewrite lookup_delete_eq; simpl.
        apply (size_zero_lookup _ u') in Hsz. by rewrite lookup_delete_ne in Hsz.
      * rewrite lookup_insert_eq; simpl. by rewrite lookup_delete_ne.
    + rewrite lookup_insert_eq; simpl. by rewrite lookup_insert_ne.
  - destruct (count r - 1 =? 0); [case_bool_decide|].
    + by rewrite lookup_delete_ne.
    + by rewrite lookup_insert_ne.
    + by rewrite lookup_insert_ne.
Qed.

Lemma count_of_register d u nm ur gr (ds : docs_map) d' u' :
  count_of (register d u nm ur gr ds) d' u' =
  count_of ds d' u' + (if bool_decide ((d', u') = (d, u)) then 1 else 0).
Proof.
  unfold count_of. case_bool_decide as Heq.
  - inversion Heq; subst. rewrite record_of_register_eq.
    destruct (record_of ds d u); simpl; lia.
  - rewrite record_of_register_ne by done. lia.
Qed.

Lemma count_of_release d u (ds : docs_map) d' u' :
  count_of (release d u ds) d' u' =
  count_of ds d' u' -
  (if bool_decide ((d', u') = (d, u) ∧ is_Some (record_of ds d u)) then 1 else 0).
Proof.
  unfold count_of. destruct (decide ((d', u') = (d, u))) as [Heq|Hne].
  - inversion Heq; subst. rewrite record_of_release_eq.
    destruct (record_of ds d u) as [r|]; simpl.
    + rewrite bool_decide_eq_true_2 by (split; [done|by eexists]).
      destruct (count r - 1 =? 0) eqn:Hz; simpl; lia.
    + rewrite bool_decide_eq_false_2; [lia|]. intros [_ [? ?]]; discriminate.
  - rewrite record_of_release_ne by done.
    rewrite bool_decide_eq_false_2; [lia|]. by intros [? _].
Qed.

Lemma register_nonempty d u nm ur gr (ds : docs_map) :
  (∀ d' users, ds !! d' = Some users → users ≠ ∅) →
  ∀ d' users, register d u nm ur gr ds !! d' = Some users → users ≠ ∅.
Proof.
  intros Hne d' users. unfold register.
  destruct (decide (d' = d)) as [->|Hd'].
  - destruct (ds !! d) as [us|] eqn:Hd; simpl.
    + rewrite Hd; simpl. destruct (us !! u); rewrite lookup_insert_eq;
        intros [= <-]; apply insert_non_empty.
    + rewrite lookup_insert_eq; simpl. rewrite lookup_empty, lookup_insert_eq.
      intros [= <-]; apply insert_non_empty.
  - destruct (ds !! d) as [us|] eqn:Hd; simpl.
    + rewrite Hd; simpl. destruct (us !! u); rewrite lookup_insert_ne by done; apply Hne.
    + rewrite lookup_insert_eq; simpl. rewrite lookup_empty, !lookup_insert_ne by done.
      apply Hne.
Qed.

Lemma release_nonempty d u (ds : docs_map) :
  (∀ d' users, ds !! d' = Some users → users ≠ ∅) →
  ∀ d' users, release d u ds !! d' = Some users → users ≠ ∅.
Proof.
  intros Hne d' users. unfold release.
  destruct (ds !! d) as [us|] eqn:Hd; [|apply Hne].
  destruct (us !! u) as [r|] eqn:Hu; [|apply Hne]. simpl.
  destruct (decide (d' = d)) as [->|Hd'].
  - destruct (count r - 1 =? 0); [case_bool_decide as Hsz|].
    + by rewrite lookup_delete_eq.
    + rewrite lookup_insert_eq. intros [= <-] Hempty. apply Hsz.
      rewrite Hempty. apply map_size_empty.
    + rewrite lookup_insert_eq. intros [= <-]. apply insert_non_empty.
  - destruct (count r - 1 =? 0); [case_bool_decide|].
    + rewrite lookup_delete_ne by done. apply Hne.
    + rewrite lookup_insert_ne by done. apply Hne.
    + rewrite lookup_insert_ne by done. apply Hne.
Qed.

(** ** Counting sessions *)

Lemma filter_length_ext (f g : nat → bool) (l : list nat) :
  (∀ x, x ∈ l → f x = g x) →
  length (List.filter f l) = length (List.filter g l).
Proof.
  induction l as [|x l IH]; intros Hfg; [done|]. cbn [List.filter].
  rewrite (Hfg x) by left.
  assert (length (List.filter f l) = length (List.filter g l)) as Hl
    by (apply IH; intros; apply Hfg; by right).
  destruct (g x); cbn [length]; by rewrite Hl.
Qed.

Lemma filter_length_update (f g : nat → bool) (c : nat) (l : list nat) :
  NoDup l → (∀ x, x ≠ c → g x = f x) →
  (length (List.filter g l) ≤ length (List.filter f l) + (if g c then 1 else 0))%nat.
Proof.
  intros Hnd Hfg. induction Hnd as [|x l Hx Hnd IH]; cbn [List.filter]; [simpl; lia|].
  destruct (decide (x = c)) as [->|Hxc].
  - assert (length (List.filter g l) = length (List.filter f l)) as Hl.
    { apply filter_length_ext. intros y Hy. apply Hfg. intros ->. done. }
    destruct (g c), (f c); cbn [length]; lia.
  - rewrite (Hfg x) by done. destruct (f x); cbn [length]; lia.
Qed.

Lemma filter_length_untrack (f : nat → bool) (c : nat) (l : list nat) :
  NoDup l → c ∈ l →
  (length (List.filter f (filter (λ c', c' ≠ c) l)) + (if f c then 1 else 0)
   = length (List.filter f l))%nat.
Proof.
  intros Hnd. induction Hnd as [|x l Hx Hnd IH]; intros Hc; [by apply elem_of_nil in Hc|].
  rewrite filter_cons. destruct (decide (x = c)) as [->|Hxc].
  - rewrite decide_False by (intros H; by apply H).
    assert (filter (λ c', c' ≠ c) l = l) as ->.
    { clear -Hx. induction l as [|y l IH]; [done|]. rewrite filter_cons.
      apply not_elem_of_cons in Hx as [Hy Hl].
      rewrite decide_True by done. by rewrite IH. }
    cbn [List.filter]. destruct (f c); cbn [length]; lia.
  - rewrite decide_True by done. apply elem_of_cons in Hc as [->|Hc]; [done|].
    specialize (IH Hc). cbn [List.filter].
    destruct (f x); cbn [length]; lia.
Qed.

(** ** The invariant of the registry *)

Lemma invariant_initial : invariant initial.
Proof.
  split; simpl.
  - intros d users. by rewrite lookup_empty.
  - intros d u r. unfold record_of; simpl. by rewrite lookup_empty.
  - intros d u. unfold open_sessions, count_of, record_of; simpl.
    rewrite lookup_empty; simpl. lia.
  - constructor.
  - intros c Hc. by apply elem_of_nil in Hc.
Qed.

Lemma socket_registered_eq c msg d u st :
  userMeta (socket (registered c msg d u st) c) = Some (UserMeta d u msg).
Proof. unfold socket, registered, set_userMeta; simpl. by rewrite lookup_insert_eq. Qed.

Lemma socket_registered_ne c msg d u st c' :
  c' ≠ c → socket (registered c msg d u st) c' = socket st c'.
Proof.
  intros Hne. unfold socket, registered, set_userMeta; simpl.
  by rewrite lookup_insert_ne.
Qed.

Lemma eqb_pair (d u d' u' : string) :
  String.eqb d d' && String.eqb u u' = bool_decide ((d', u') = (d, u)).
Proof.
  destruct (String.eqb_spec d d') as [->|Hd], (String.eqb_spec u u') as [->|Hu]; simpl;
    symmetry; try (by apply bool_decide_eq_true_2);
    apply bool_decide_eq_false_2; congruence.
Qed.

Lemma count_of_positive (ds : docs_map) d u :
  0 < count_of ds d u → is_Some (record_of ds d u).
Proof. unfold count_of. destruct (record_of ds d u); simpl; [by eexists|lia]. Qed.

Lemma invariant_registered c msg d u st :
  invariant st → invariant (registered c msg d u st).
Proof.
  intros [Hne Hpos Hses Hnd Htr]. split.
  - apply register_nonempty, Hne.
  - intros d' u' r. cbn [registered set_userMeta set_docs docs].
    destruct (decide ((d', u') = (d, u))) as [Heq|Hneq].
    + inversion Heq; subst. rewrite record_of_register_eq. intros [= <-].
      destruct (record_of (docs st) d u) as [r0|] eqn:Hr0; simpl; [|lia].
      specialize (Hpos _ _ _ Hr0). lia.
    + rewrite record_of_register_ne by done. apply Hpos.
  - intros d' u'. specialize (Hses d' u'). unfold open_sessions in *.
    cbn [registered set_userMeta set_docs docs clients].
    rewrite count_of_register.
    pose proof (filter_length_update (attached_to st d' u')
      (attached_to (registered c msg d u st) d' u') c (clients st) Hnd) as Hlen.
    assert (attached_to (registered c msg d u st) d' u' c
            = bool_decide ((d', u') = (d, u))) as Hc.
    { unfold attached_to. rewrite socket_registered_eq. apply eqb_pair. }
    rewrite Hc in Hlen.
    assert (∀ x, x ≠ c →
      attached_to (registered c msg d u st) d' u' x = attached_to st d' u' x) as Hext.
    { intros x Hx. unfold attached_to. by rewrite socket_registered_ne. }
    specialize (Hlen Hext).
    change (clients (registered c msg d u st)) with (clients st).
    destruct (bool_decide ((d', u') = (d, u))); lia.
  - apply Hnd.
  - intros c' Hc'. cbn [registered set_userMeta set_docs sockets].
    apply lookup_insert_is_Some'. right. by apply Htr.
Qed.

Lemma attached_to_untrack c st d u x :
  attached_to (untrack c st) d u x = attached_to st d u x.
Proof. reflexivity. Qed.

Lemma open_sessions_untrack c st d u :
  NoDup (clients st) → c ∈ clients st →
  open_sessions (untrack c st) d u =
  open_sessions st d u - (if attached_to st d u c then 1 else 0).
Proof.
  intros Hnd Hc. unfold open_sessions. cbn [untrack clients].
  pose proof (filter_length_untrack (attached_to st d u) c (clients st) Hnd Hc) as Hlen.
  rewrite (filter_length_ext (attached_to (untrack c st) d u) (attached_to st d u))
    by (intros; apply attached_to_untrack).
  destruct (attached_to st d u c); lia.
Qed.

Lemma invariant_untrack c st :
  invariant st → c ∈ clients st → invariant (untrack c st).
Proof.
  intros [Hne Hpos Hses Hnd Htr] Hc. split; try done.
  - intros d u. rewrite open_sessions_untrack by done.
    specialize (Hses d u). cbn [untrack docs].
    destruct (attached_to st d u c); lia.
  - cbn [untrack clients]. by apply NoDup_filter.
  - intros c'. cbn [untrack clients sockets]. rewrite list_elem_of_filter.
    intros [_ Hc']. by apply Htr.
Qed.

Lemma invariant_closed c meta st :
  invariant st → c ∈ clients st → userMeta (socket st c) = Some meta →
  invariant (set_docs (release (docId meta) (userId meta)) (untrack c st)).
Proof.
  intros Hinv Hc Hmeta. pose proof (invariant_untrack c st Hinv Hc) as [Hne Hpos Hses Hnd Htr].
  destruct Hinv as [_ _ Hses0 Hnd0 _].
  split; try done.
  - apply release_nonempty, Hne.
  - intros d u r. cbn [set_docs docs].
    destruct (decide ((d, u) = (docId meta, userId meta))) as [Heq|Hneq].
    + inversion Heq; subst. rewrite record_of_release_eq.
      destruct (record_of (docs (untrack c st)) (docId meta) (userId meta)) as [r0|] eqn:Hr0;
        [|done].
      specialize (Hpos _ _ _ Hr0).
      destruct (count r0 - 1 =? 0) eqn:Hz; [done|]. intros [= <-]. simpl. lia.
    + rewrite record_of_release_ne by done. apply Hpos.
  - intros d u. cbn [set_docs docs]. rewrite count_of_release.
    change (open_sessions (set_docs (release (docId meta) (userId meta)) (untrack c st)) d u)
      with (open_sessions (untrack c st) d u).
    rewrite open_sessions_untrack by done. cbn [untrack docs].
    specialize (Hses0 d u).
    unfold attached_to. rewrite Hmeta, eqb_pair.
    case_bool_decide as Heq.
    + inversion Heq; subst.
      assert (0 < open_sessions st (docId meta) (userId meta)) as Hopen.
      { unfold open_sessions.
        assert (c ∈ List.filter (attached_to st (docId meta) (userId meta)) (clients st)) as Hin.
        { rewrite list_elem_of_In, filter_In, <- list_elem_of_In. split; [done|].
          unfold attached_to. rewrite Hmeta. by rewrite !String.eqb_refl. }
        destruct (List.filter _ _); [by apply elem_of_nil in Hin|simpl; lia]. }
      rewrite bool_decide_eq_true_2; [lia|].
      split; [done|]. apply count_of_positive. lia.
    + rewrite bool_decide_eq_false_2 by (by intros [? _]). lia.
Qed.

Lemma record_present c meta st :
  invariant st → c ∈ clients st → userMeta (socket st c) = Some meta →
  is_Some (record_of (docs st) (docId meta) (userId meta)).
Proof.
  intros Hinv Hc Hmeta. apply count_of_positive.
  pose proof (inv_sessions st Hinv (docId meta) (userId meta)) as Hses.
  assert (0 < open_sessions st (docId meta) (userId meta)); [|lia].
  unfold open_sessions.
  assert (c ∈ List.filter (attached_to st (docId meta) (userId meta)) (clients st)) as Hin.
  { rewrite list_elem_of_In, filter_In, <- list_elem_of_In. split; [done|].
    unfold attached_to. rewrite Hmeta. by rewrite !String.eqb_refl. }
  destruct (List.filter _ _); [by apply elem_of_nil in Hin|simpl; lia].
Qed.

(** ** What a step does to the registry *)

Lemma same_presence_refl st : same_presence st st.
Proof. by split. Qed.

Lemma quiet_sends (m : message) (cs : list nat) :
  Forall (λ e, quiet e = true) (map (λ c, Send c m) cs).
Proof. apply Forall_forall. intros e [c [-> _]]%list_elem_of_fmap. reflexivity. Qed.

Lemma quiet_tally_register d u tr :
  Forall (λ e, quiet e = true) tr → tally (is_register d u) tr = 0.
Proof.
  induction 1 as [|e tr He _ IH]; [done|]. cbn [tally]. rewrite IH.
  destruct e as [| | | |[]|]; try done.
Qed.

Lemma quiet_tally_release d u tr :
  Forall (λ e, quiet e = true) tr → tally (is_release d u) tr = 0.
Proof.
  induction 1 as [|e tr He _ IH]; [done|]. cbn [tally]. rewrite IH.
  destruct e as [| | | |[? ?|[[? ?]|] ?| | | | |]|]; try done.
Qed.

Lemma tally_app p tr1 tr2 : tally p (tr1 ++ tr2) = tally p tr1 + tally p tr2.
Proof. induction tr1 as [|e tr1 IH]; simpl; [done|]. rewrite IH. lia. Qed.

Lemma key_of_cases v :
  (∃ s, v = Some (JStr s) ∧ inherited s = false) ∨ key_of v = unsupported.
Proof.
  destruct v as [[| | |s| |]|]; try (by right).
  cbn [key_of]. destruct (inherited s) eqn:Hs; [by right|left; by exists s].
Qed.

Lemma dispatch_moves c p st :
  supported (result (dispatch c p st)) = true → moves st (dispatch c p st).
Proof.
  destruct p as [raw|msg].
  { intros _. apply moves_quiet; [apply same_presence_refl|constructor]. }
  assert (msg = JNull ∨ msg ≠ JNull) as [->|Hnull]
    by (destruct msg; (by left) || (by right)).
  { intros _. apply moves_quiet; [apply same_presence_refl|constructor]. }
  destruct (truthy (property msg "registration")) eqn:Ht.
  - unfold dispatch. cbn [JSON_parse]. rewrite member_eq, bind_ret, Ht by done.
    destruct (key_of_cases (property msg "docId")) as [[d [Hd Hd']]|Hd].
    + destruct (key_of_cases (property msg "userId")) as [[u [Hu Hu']]|Hu].
      * intros _. rewrite (registration_branch_eq c msg d u) by done.
        apply moves_register. apply Forall_app. split; [apply quiet_sends|].
        destruct (is_locked st d); repeat constructor.
      * unfold registration_branch. rewrite !member_eq, !bind_ret, Hd by done.
        cbn [key_of]. rewrite Hd', bind_ret, Hu. discriminate.
    + unfold registration_branch. rewrite !member_eq, !bind_ret, Hd by done.
      discriminate.
  - intros _. rewrite dispatch_other by done.
    apply moves_quiet; [apply same_presence_refl|repeat constructor].
Qed.

Lemma on_message_moves c p st :
  supported (result (on_message c p st)) = true → moves st (on_message c p st).
Proof.
  destruct (userMeta (socket st c)) as [meta|] eqn:Hmeta.
  - destruct (is_locked st (docId meta)) eqn:Hl.
    + intros _. rewrite (on_message_locked c p meta) by done.
      apply moves_quiet; [apply same_presence_refl|apply quiet_sends].
    + rewrite (on_message_unlocked c p meta) by done. apply dispatch_moves.
  - rewrite on_message_unregistered by done. apply dispatch_moves.
Qed.

Lemma same_presence_locked f st : same_presence st (set_locked f st).
Proof. by split. Qed.

Lemma same_presence_transport c s fails st : same_presence st (set_transport c s fails st).
Proof.
  split; try done.
  - intros c'. unfold socket, set_transport; simpl.
    destruct (decide (c' = c)) as [->|Hne].
    + by rewrite lookup_insert_eq.
    + by rewrite lookup_insert_ne.
  - intros c' Hc'. cbn [set_transport sockets].
    apply lookup_insert_is_Some'. by right.
Qed.

Lemma quiet_reply tr l text :
  quiet (Info l) = true → Forall (λ e, quiet e = true) tr →
  Forall (λ e, quiet e = true) (tr ++ [Info l; Respond text]).
Proof. intros Hl Htr. apply Forall_app. split; [done|]. by repeat constructor. Qed.

Lemma step_moves e st :
  enabled e st = true → supported (result (step e st)) = true → moves st (step e st).
Proof.
  destruct e as [c|c s fails|c p|c reason|c chunk|id body|id|id body|id r|id r];
    cbn [step enabled]; intros Hen Hsup.
  - apply bool_decide_eq_true in Hen. by apply moves_connect.
  - apply moves_quiet; [apply same_presence_transport|constructor].
  - by apply on_message_moves.
  - apply bool_decide_eq_true in Hen. rewrite bind_modify.
    destruct (userMeta (socket st c)) as [meta|] eqn:Hmeta.
    + rewrite (on_close_registered c reason meta) by done.
      apply moves_release; [done..|].
      apply Forall_app. split; [apply quiet_sends|by repeat constructor].
    + rewrite on_close_unregistered by done.
      apply moves_leave; [done..|by repeat constructor].
  - rewrite _write_eq. apply moves_quiet; [apply same_presence_refl|].
    destruct (bool_decide (state _ ≠ _)); simpl; by repeat constructor.
  - unfold post_reload. rewrite bind_broadcast, bind_emit.
    apply moves_quiet; [apply same_presence_refl|].
    apply (quiet_reply _ (DocumentReloaded id)); [done|apply quiet_sends].
  - unfold post_lock. rewrite bind_modify, bind_broadcast, bind_emit.
    apply moves_quiet; [apply same_presence_locked|].
    apply (quiet_reply _ (DocumentLocked id)); [done|apply quiet_sends].
  - unfold post_unlock. rewrite bind_modify, bind_broadcast, bind_emit.
    apply moves_quiet; [apply same_presence_locked|].
    apply (quiet_reply _ (DocumentUnlocked id)); [done|apply quiet_sends].
  - unfold post_redirect. rewrite bind_broadcast, bind_emit.
    apply moves_quiet; [apply same_presence_refl|].
    apply (quiet_reply _ (DocumentRedirect id r)); [done|apply quiet_sends].
  - unfold post_delete. rewrite bind_broadcast, bind_emit.
    apply moves_quiet; [apply same_presence_refl|].
    apply (quiet_reply _ (DocumentDelete id r)); [done|apply quiet_sends].
Qed.

Lemma invariant_same_presence st st' :
  same_presence st st' → invariant st → invariant st'.
Proof.
  intros [Hd Hc Hm Hs] [Hne Hpos Hses Hnd Htr]. split.
  - rewrite Hd. apply Hne.
  - rewrite Hd. apply Hpos.
  - intros d u. rewrite Hd. specialize (Hses d u). unfold open_sessions in *.
    rewrite Hc. rewrite (filter_length_ext _ (attached_to st d u)); [done|].
    intros x _. unfold attached_to. by rewrite Hm.
  - by rewrite Hc.
  - intros c. rewrite Hc. intros Hin. by apply Hs, Htr.
Qed.

Lemma invariant_connect c st :
  sockets st !! c = None → invariant st → invariant (connect c st).
Proof.
  intros Hfresh [Hne Hpos Hses Hnd Htr]. split; try done.
  - intros d u. specialize (Hses d u). unfold open_sessions in *.
    cbn [connect clients docs]. rewrite List.filter_app, length_app.
    assert (attached_to (connect c st) d u c = false) as Hc.
    { unfold attached_to, socket, connect; simpl. by rewrite lookup_insert_eq. }
    cbn [List.filter]. rewrite Hc. cbn [length].
    rewrite (filter_length_ext _ (attached_to st d u)); [lia|].
    intros x Hx. unfold attached_to, socket, connect; simpl.
    rewrite lookup_insert_ne; [done|]. intros ->.
    apply Htr in Hx. rewrite Hfresh in Hx. by destruct Hx.
  - cbn [connect clients]. apply NoDup_app. split; [done|]. split.
    + intros x Hx ->%list_elem_of_singleton. apply Htr in Hx.
      rewrite Hfresh in Hx. by destruct Hx.
    + apply NoDup_singleton.
  - intros x. cbn [connect clients sockets]. rewrite elem_of_app, list_elem_of_singleton.
    intros [Hx| ->]; apply lookup_insert_is_Some'; [right; by apply Htr|by left].
Qed.

Lemma moves_invariant st o : invariant st → moves st o → invariant (final o).
Proof.
  intros Hinv [r st' tr Hsp _|c Hc|c msg d u tr _|c meta reason tr Hc Hm _|c tr Hc Hm _];
    cbn [final].
  - by apply (invariant_same_presence st).
  - by apply invariant_connect.
  - by apply invariant_registered.
  - by apply invariant_closed.
  - by apply invariant_untrack.
Qed.

Lemma moves_count st o d u :
  invariant st → moves st o →
  count_of (docs (final o)) d u =
  count_of (docs st) d u
  + tally (is_register d u) (trace o) - tally (is_release d u) (trace o).
Proof.
  intros Hinv [r st' tr Hsp Hq|c Hc|c msg d0 u0 tr Hq|c meta reason tr Hc Hm Hq|c tr Hc Hm Hq];
    cbn [final trace tally]; rewrite ?quiet_tally_register, ?quiet_tally_release by done.
  - rewrite (sp_docs _ _ Hsp). lia.
  - cbn [connect docs]. lia.
  - cbn [registered set_userMeta set_docs docs]. rewrite count_of_register.
    cbn [is_register is_release]. rewrite eqb_pair. lia.
  - cbn [set_docs untrack docs]. rewrite count_of_release.
    cbn [is_register is_release]. rewrite eqb_pair.
    pose proof (record_present c meta st Hinv Hc Hm) as Hrec.
    destruct (decide ((d, u) = (docId meta, userId meta))) as [Heq|Hne].
    + rewrite !bool_decide_eq_true_2 by done. lia.
    + rewrite !bool_decide_eq_false_2 by (try done; by intros [? _]). lia.
  - cbn [untrack docs]. lia.
Qed.

(** ** Runs *)

Lemma run_invariant es st :
  invariant st → valid_run es st = true →
  invariant (run es st).1 ∧
  ∀ d u, count_of (docs (run es st).1) d u =
         count_of (docs st) d u
         + tally (is_register d u) (run es st).2 - tally (is_release d u) (run es st).2.
Proof.
  revert st. induction es as [|e es IH]; intros st Hinv Hvalid; cbn [run valid_run fst snd].
  { split; [done|]. intros d u. simpl. lia. }
  cbn [valid_run] in Hvalid.
  apply andb_true_iff in Hvalid as [[Hen Hsup]%andb_true_iff Hvalid].
  pose proof (step_moves e st Hen Hsup) as Hmoves.
  pose proof (moves_invariant st _ Hinv Hmoves) as Hinv'.
  destruct (IH (final (step e st)) Hinv' Hvalid) as [Hfin Hcount].
  split; [done|]. intros d u.
  rewrite Hcount, (moves_count st _ d u Hinv Hmoves), !tally_app. lia.
Qed.

(** ** The surplus of a count never shrinks *)

Lemma filter_length_drop (f g : nat → bool) (c : nat) (l : list nat) :
  NoDup l → c ∈ l → (∀ x, x ≠ c → g x = f x) → g c = false →
  (length (List.filter g l) + (if f c then 1 else 0) = length (List.filter f l))%nat.
Proof.
  intros Hnd. induction Hnd as [|x l Hx Hnd IH]; intros Hc Hfg Hgc;
    [by apply elem_of_nil in Hc|].
  cbn [List.filter]. destruct (decide (x = c)) as [->|Hxc].
  - rewrite Hgc.
    assert (length (List.filter g l) = length (List.filter f l)) as Hl.
    { apply filter_length_ext. intros y Hy. apply Hfg. intros ->. done. }
    destruct (f c); cbn [length]; lia.
  - apply elem_of_cons in Hc as [->|Hc]; [done|]. specialize (IH Hc Hfg Hgc).
    rewrite (Hfg x) by done. destruct (f x); cbn [length]; lia.
Qed.

Lemma open_sessions_same_presence st st' d u :
  same_presence st st' → open_sessions st' d u = open_sessions st d u.
Proof.
  intros [_ Hc Hm _]. unfold open_sessions. rewrite Hc. f_equal.
  apply filter_length_ext. intros x _. unfold attached_to. by rewrite Hm.
Qed.

Lemma open_sessions_connect c st d u :
  sockets st !! c = None → (∀ x, x ∈ clients st → is_Some (sockets st !! x)) →
  open_sessions (connect c st) d u = open_sessions st d u.
Proof.
  intros Hfresh Htr. unfold open_sessions. cbn [connect clients].
  rewrite List.filter_app, length_app.
  assert (attached_to (connect c st) d u c = false) as Hc.
  { unfold attached_to, socket, connect; simpl. by rewrite lookup_insert_eq. }
  cbn [List.filter]. rewrite Hc. cbn [length].
  rewrite (filter_length_ext _ (attached_to st d u)); [lia|].
  intros x Hx. unfold attached_to, socket, connect; simpl.
  rewrite lookup_insert_ne; [done|]. intros ->.
  apply Htr in Hx. rewrite Hfresh in Hx. by destruct Hx.
Qed.

Lemma attached_to_registered_eq c msg d u st d' u' :
  attached_to (registered c msg d u st) d' u' c = bool_decide ((d', u') = (d, u)).
Proof. unfold attached_to. rewrite socket_registered_eq. apply eqb_pair. Qed.

Lemma attached_to_registered_ne c msg d u st d' u' x :
  x ≠ c → attached_to (registered c msg d u st) d' u' x = attached_to st d' u' x.
Proof. intros Hx. unfold attached_to. by rewrite socket_registered_ne. Qed.

Lemma open_sessions_registered_le c msg d u st d' u' :
  NoDup (clients st) →
  open_sessions (registered c msg d u st) d' u'
  ≤ open_sessions st d' u' + (if bool_decide ((d', u') = (d, u)) then 1 else 0).
Proof.
  intros Hnd. unfold open_sessions.
  change (clients (registered c msg d u st)) with (clients st).
  pose proof (filter_length_update (attached_to st d' u')
    (attached_to (registered c msg d u st) d' u') c (clients st) Hnd
    (λ x Hx, attached_to_registered_ne c msg d u st d' u' x Hx)) as Hlen.
  rewrite attached_to_registered_eq in Hlen.
  destruct (bool_decide ((d', u') = (d, u))); lia.
Qed.

Lemma open_sessions_registered_other c msg d u st d' u' :
  NoDup (clients st) → c ∈ clients st → (d', u') ≠ (d, u) →
  open_sessions (registered c msg d u st) d' u'
  = open_sessions st d' u' - (if attached_to st d' u' c then 1 else 0).
Proof.
  intros Hnd Hc Hne. unfold open_sessions.
  change (clients (registered c msg d u st)) with (clients st).
  pose proof (filter_length_drop (attached_to st d' u')
    (attached_to (registered c msg d u st) d' u') c (clients st) Hnd Hc
    (λ x Hx, attached_to_registered_ne c msg d u st d' u' x Hx)) as Hlen.
  rewrite attached_to_registered_eq, bool_decide_eq_false_2 in Hlen by done.
  specialize (Hlen eq_refl). destruct (attached_to st d' u' c); lia.
Qed.

Lemma moves_surplus st o d u :
  invariant st → moves st o → surplus st d u ≤ surplus (final o) d u.
Proof.
  intros Hinv Hmoves. pose proof Hinv as [_ _ _ Hnd Htr]. unfold surplus.
  destruct Hmoves as [r st' tr Hsp _|c Hc|c msg d0 u0 tr _|c meta reason tr Hc Hm _|c tr Hc Hm _];
    cbn [final].
  - rewrite (sp_docs _ _ Hsp), (open_sessions_same_presence st st') by done. lia.
  - rewrite open_sessions_connect by done. cbn [connect docs]. lia.
  - pose proof (open_sessions_registered_le c msg d0 u0 st d u Hnd) as Hle.
    cbn [registered set_userMeta set_docs docs]. rewrite count_of_register.
    fold (registered c msg d0 u0 st). lia.
  - change (open_sessions (set_docs (release (docId meta) (userId meta)) (untrack c st)) d u)
      with (open_sessions (untrack c st) d u).
    rewrite open_sessions_untrack by done.
    cbn [set_docs untrack docs]. rewrite count_of_release.
    unfold attached_to. rewrite Hm, eqb_pair.
    pose proof (record_present c meta st Hinv Hc Hm) as Hrec.
    destruct (decide ((d, u) = (docId meta, userId meta))) as [Heq|Hne].
    + rewrite !bool_decide_eq_true_2 by done. lia.
    + rewrite !bool_decide_eq_false_2 by (try done; by intros [? _]). lia.
  - rewrite open_sessions_untrack by done. cbn [untrack docs].
    unfold attached_to. rewrite Hm. lia.
Qed.

Lemma run_surplus es st d u :
  invariant st → valid_run es st = true →
  surplus st d u ≤ surplus (run es st).1 d u.
Proof.
  revert st. induction es as [|e es IH]; intros st Hinv Hvalid; cbn [run fst]; [lia|].
  cbn [valid_run] in Hvalid.
  apply andb_true_iff in Hvalid as [[Hen Hsup]%andb_true_iff Hvalid].
  pose proof (step_moves e st Hen Hsup) as Hmoves.
  pose proof (moves_surplus st _ d u Hinv Hmoves).
  pose proof (IH _ (moves_invariant st _ Hinv Hmoves) Hvalid). lia.
Qed.

Lemma open_sessions_nonneg st d u : 0 ≤ open_sessions st d u.
Proof. unfold open_sessions. lia. Qed.

(** ** Traces and single documents *)

(** Closes a goal [e ∈ tr → False] for an explicit trace [tr] that has no
    effect of the shape of [e]. *)
Ltac not_in_trace H :=
  repeat (apply elem_of_cons in H as [[=]|H]); by apply elem_of_nil in H.

Lemma no_push_in_sends (m : message) (cs : list nat) c x :
  Push c x ∉ map (λ c', Send c' m) cs.
Proof. intros [c' [[=] _]]%list_elem_of_fmap. Qed.

Lemma elem_of_sends (m m' : message) (cs : list nat) c :
  Send c m' ∈ map (λ c', Send c' m) cs ↔ m' = m ∧ c ∈ cs.
Proof.
  rewrite list_elem_of_fmap. split.
  - intros [c' [[= -> ->] Hc]]. done.
  - intros [-> Hc]. by exists c.
Qed.

Lemma audience_set_transport c s fails st d :
  audience (set_transport c s fails st) d = audience st d.
Proof.
  unfold audience. cbn [set_transport clients]. apply filter_ext. intros x.
  unfold attached. by rewrite (sp_meta _ _ (same_presence_transport c s fails st)).
Qed.



Lemma register_lookup_ne d u nm ur gr (ds : docs_map) d' :
  d' ≠ d → register d u nm ur gr ds !! d' = ds !! d'.
Proof.
  intros Hne. unfold register. destruct (ds !! d) as [users|] eqn:Hd; simpl.
  - rewrite Hd; simpl. destruct (users !! u); by rewrite lookup_insert_ne.
  - rewrite lookup_insert_eq; simpl. rewrite lookup_empty. by rewrite !lookup_insert_ne.
Qed.

Lemma release_lookup_ne d u (ds : docs_map) d' :
  d' ≠ d → release d u ds !! d' = ds !! d'.
Proof.
  intros Hne. unfold release. destruct (ds !! d) as [users|]; [|done].
  destruct (users !! u) as [r|]; [|done]. simpl.
  destruct (count r - 1 =? 0); [case_bool_decide|].
  - by rewrite lookup_delete_ne.
  - by rewrite lookup_insert_ne.
  - by rewrite lookup_insert_ne.
Qed.

(** * The claims *)



(** The scenario of the specification: two tabs of one user, closed one after
    the other. *)
Example two_tabs_scenario :
  count_of (docs (after one_tab)) "d1" "A" = 1 ∧
  count_of (docs (after two_tabs)) "d1" "A" = 2 ∧
  count_of (docs (after (two_tabs ++ [Close 1 1000]))) "d1" "A" = 1 ∧
  is_Some (docs (after (two_tabs ++ [Close 1 1000])) !! "d1") ∧
  docs (after (two_tabs ++ [Close 1 1000; Close 2 1000])) = ∅.
Proof. vm_compute. repeat split; eauto. Qed.



(** C3. [broadcast(docId, m)] calls [send(m)] on exactly the tracked sockets
    whose attached metadata has this document id, once each in the order of
    [wss.clients], whatever the presence and lock registries hold; no other
    socket is sent anything. *)
Theorem broadcast_delivery_set (st : server) (d : string) (m : message) :
  let o := broadcast d m st in
  trace o = map (λ c, Send c m) (audience st d) ∧
  (∀ c m', Send c m' ∈ trace o ↔
           m' = m ∧ c ∈ clients st ∧
           ∃ meta, userMeta (socket st c) = Some meta ∧ docId meta = d) ∧
  (∀ c, userMeta (socket st c) = None → ∀ m', Send c m' ∉ trace o) ∧
  (∀ ds lk, trace (broadcast d m (Server ds lk (sockets st) (clients st))) = trace o).
Proof.
  intros o. subst o. rewrite broadcast_eq. cbn [trace].
  split; [done|]. split; [|split].
  - intros c m'. rewrite elem_of_sends, elem_of_audience. done.
  - intros c Hnone m'. rewrite elem_of_sends, elem_of_audience.
    intros (_ & _ & meta & Hm & _). congruence.
  - intros ds lk. by rewrite broadcast_eq.
Qed.

Lemma broadcast_delivery_set_witness :
  let st := after (two_tabs ++ [Connection 3; Message 3 (ann "d9"); Connection 4]) in
  let o := broadcast "d1" (MsgRedirect "/x") st in
  trace o = [Send 1 (MsgRedirect "/x"); Send 2 (MsgRedirect "/x")] ∧
  (Send 3 (MsgRedirect "/x") ∉ trace o) ∧
  (Send 4 (MsgRedirect "/x") ∉ trace o).
Proof.
  intros st o.
  pose proof (broadcast_delivery_set st "d1" (MsgRedirect "/x")) as (Htr & Hiff & Hnone & _).
  split; [exact Htr|]. split.
  - intros Hin. apply Hiff in Hin as (_ & _ & meta & Hmeta & Hd).
    vm_compute in Hmeta. injection Hmeta as <-. discriminate Hd.
  - apply Hnone. reflexivity.
Defined.

(** C4, as stated, fails: a registered session on a locked document sends
    text that does not parse, and the lock notice is broadcast, because the
    lock check comes before the parse. *)
Lemma malformed_payload_on_locked_document :
  let st := after (one_tab ++ [PostLock "d1"]) in
  userMeta (socket st 1) = Some (UserMeta "d1" "A" (registration_message "d1" "A")) ∧
  ¬ (∀ c m, Send c m ∉ trace (on_message 1 (Malformed "{") st)).
Proof.
  split; [reflexivity|]. intros H. apply (H 1%nat MsgLock).
  vm_compute. left.
Qed.

(** C4, amended. Text that does not parse, from a registered session, leaves
    the whole state as it was (the registries, and the session's attachment);
    nothing is sent to any socket when the session's document is not locked,
    and when it is locked the lock notice is broadcast to the document. *)
Theorem malformed_payload_dropped (st : server) (c : nat) (meta : userMeta_t) (raw : string) :
  userMeta (socket st c) = Some meta →
  let o := on_message c (Malformed raw) st in
  final o = st ∧
  userMeta (socket (final o) c) = Some meta ∧
  trace o = (if is_locked st (docId meta)
             then map (λ c', Send c' MsgLock) (audience st (docId meta))
             else []).
Proof.
  intros Hmeta o. subst o. destruct (is_locked st (docId meta)) eqn:Hl.
  - by rewrite (on_message_locked c _ meta).
  - by rewrite (on_message_unlocked c _ meta), dispatch_malformed.
Qed.

Lemma malformed_payload_dropped_witness :
  userMeta (socket (after one_tab) 1)
  = Some (UserMeta "d1" "A" (registration_message "d1" "A")) ∧
  let o := on_message 1 (Malformed "{") (after one_tab) in
  final o = after one_tab ∧
  userMeta (socket (final o) 1) = Some (UserMeta "d1" "A" (registration_message "d1" "A")) ∧
  trace o = [].
Proof.
  split; [reflexivity|].
  apply (malformed_payload_dropped (after one_tab) 1
           (UserMeta "d1" "A" (registration_message "d1" "A")) "{").
  reflexivity.
Defined.

(** C5, as stated, fails: on a locked document the presence snapshot is
    broadcast first and the direct lock notice is sent after it. *)
Lemma registration_on_locked_document_order :
  let st := after [PostLock "d2"; Connection 1] in
  let o := on_message 1 (ann "d2") st in
  userMeta (socket st 1) = None ∧ is_locked st "d2" = true ∧
  trace o = [Info (UserRegistered "d2" "A");
             Send 1 (MsgMeta (docs (final o) !! "d2"));
             Send 1 MsgLock] ∧
  ¬ lock_notice_first 1 (trace o).
Proof.
  split; [reflexivity|]. split; [reflexivity|]. split; [reflexivity|].
  intros H. specialize (H 2%nat 1%nat 1%nat _ eq_refl eq_refl). lia.
Qed.

(** C5, amended. The first registration message of a session, in this order:
    reads the document id and the user id, logs the registration, registers
    the user in the presence registry, attaches the message to the socket,
    broadcasts the presence snapshot of the document to the document (the
    registering socket included when it is tracked), and last, if the
    document is locked, sends a lock notice to this socket only. *)
Theorem registration_sequence (st : server) (c : nat) (msg : json) (d u : string) :
  userMeta (socket st c) = None →
  registers_as msg d u →
  let o := on_message c (Wellformed msg) st in
  let st' := final o in
  result o = Normal tt ∧
  docs st' = register d u (property msg "userName") (property msg "userUrl")
               (property msg "userGravatar") (docs st) ∧
  userMeta (socket st' c) = Some (UserMeta d u msg) ∧
  locked st' = locked st ∧ clients st' = clients st ∧
  trace o = Info (UserRegistered d u)
            :: map (λ c', Send c' (MsgMeta (docs st' !! d))) (audience st' d)
            ++ (if is_locked st d then [Send c MsgLock] else []).
Proof.
  intros Hmeta Hreg o st'. subst st' o.
  rewrite on_message_unregistered, (dispatch_registration c msg d u),
    (registration_branch_eq c msg d u) by done.
  cbn [result final trace]. do 2 (split; [done|]).
  split; [apply socket_registered_eq|done].
Qed.

Lemma registration_sequence_witness :
  userMeta (socket (after [PostLock "d2"; Connection 1]) 1) = None ∧
  registers_as (registration_message "d2" "A") "d2" "A" ∧
  let o := on_message 1 (ann "d2") (after [PostLock "d2"; Connection 1]) in
  trace o = Info (UserRegistered "d2" "A")
            :: map (λ c', Send c' (MsgMeta (docs (final o) !! "d2")))
                 (audience (final o) "d2")
            ++ [Send 1 MsgLock].
Proof.
  split; [reflexivity|]. split; [repeat split|].
  apply (registration_sequence (after [PostLock "d2"; Connection 1]) 1
           (registration_message "d2" "A") "d2" "A"); [reflexivity|repeat split].
Defined.

(** Locking a document nobody is attached to sets the flag and sends nothing;
    the next registration on it gets the direct lock notice. *)
Example lock_without_sessions :
  let o := post_lock "d2" initial in
  result o = Normal tt ∧ is_locked (final o) "d2" = true ∧
  trace o = [Info (DocumentLocked "d2"); Respond "d2 was locked."] ∧
  Send 1 MsgLock ∈ trace (on_message 1 (ann "d2") (connect 1 (final o))).
Proof.
  split; [reflexivity|]. split; [reflexivity|]. split; [reflexivity|].
  vm_compute. right; right; left.
Qed.




(** C7. [broadcast] always returns normally and leaves the state (so both
    registries) as it was; every tracked socket attached to the document has
    [send(m)] called on it whether or not the send of any socket throws, and
    the calls made do not depend on the transport condition of any socket;
    with no attached socket nothing happens at all. *)
Theorem broadcast_best_effort (st : server) (d : string) (m : message) :
  let o := broadcast d m st in
  result o = Normal tt ∧ final o = st ∧
  (∀ c, c ∈ clients st →
        (∃ meta, userMeta (socket st c) = Some meta ∧ docId meta = d) →
        Send c m ∈ trace o) ∧
  (∀ c s fails,
     let o' := broadcast d m (set_transport c s fails st) in
     result o' = Normal tt ∧ trace o' = trace o) ∧
  ((∀ c, c ∈ clients st → attached st d c = false) → o = Outcome (Normal tt) st []).
Proof.
  intros o. subst o. rewrite broadcast_eq. cbn [result final trace].
  do 2 (split; [done|]). split; [|split].
  - intros c Hc Hm. apply elem_of_sends. split; [done|]. by apply elem_of_audience.
  - intros c s fails. rewrite broadcast_eq. cbn [result trace].
    by rewrite audience_set_transport.
  - intros Hnone. f_equal. unfold audience.
    assert (List.filter (attached st d) (clients st) = []) as ->; [|done].
    induction (clients st) as [|x l IH]; [done|]. cbn [List.filter].
    rewrite Hnone by left. apply IH. intros y Hy. apply Hnone. by right.
Qed.

Lemma broadcast_best_effort_witness :
  let st := after (two_tabs ++ [Transport 1 None true]) in
  let o := broadcast "d1" MsgLock st in
  send_throws (socket st 1) = true ∧
  result o = Normal tt ∧ final o = st ∧ Send 2 MsgLock ∈ trace o.
Proof.
  intros st o.
  pose proof (broadcast_best_effort st "d1" MsgLock) as (Hres & Hfin & Hall & _).
  split; [reflexivity|]. split; [exact Hres|]. split; [exact Hfin|].
  apply Hall.
  - vm_compute. right; left.
  - exists (UserMeta "d1" "A" (registration_message "d1" "A")). split; reflexivity.
Defined.




(** C9. The close of a session that never registered leaves the whole state
    unchanged, sends nothing to any socket, and apart from its log line only
    signals end-of-stream ([push(null)] and the stream's [close]). *)
Theorem close_before_registration (st : server) (c : nat) (reason : Z) :
  userMeta (socket st c) = None →
  let o := on_close c reason st in
  result o = Normal tt ∧ final o = st ∧
  docs (final o) = docs st ∧ locked (final o) = locked st ∧
  (∀ c' m, Send c' m ∉ trace o) ∧
  trace o = [Info (ConnectionClosed None reason); Push c None; EmitClose c].
Proof.
  intros Hmeta o. subst o. rewrite on_close_unregistered by done.
  cbn [result final trace]. do 4 (split; [done|]). split; [|done].
  intros c' m H. not_in_trace H.
Qed.

Lemma close_before_registration_witness :
  userMeta (socket (connect 1 initial) 1) = None ∧
  let o := on_close 1 1000 (connect 1 initial) in
  result o = Normal tt ∧ final o = connect 1 initial ∧
  docs (final o) = docs (connect 1 initial) ∧ locked (final o) = locked (connect 1 initial) ∧
  (∀ c' m, Send c' m ∉ trace o) ∧
  trace o = [Info (ConnectionClosed None 1000); Push 1 None; EmitClose 1].
Proof.
  split; [reflexivity|].
  apply (close_before_registration (connect 1 initial) 1 1000). reflexivity.
Defined.

(** C10, as stated, fails: when the document the session is attached to is
    locked, a second registration message is dropped by the lock check, so the
    attachment is not overwritten and the new document gets no record. *)
Lemma reregistration_on_locked_document :
  let st := after (one_tab ++ [PostLock "d1"]) in
  let o := on_message 1 (ann "d2") st in
  userMeta (socket st 1) = Some (UserMeta "d1" "A" (registration_message "d1" "A")) ∧
  userMeta (socket (final o) 1)
  = Some (UserMeta "d1" "A" (registration_message "d1" "A")) ∧
  userMeta (socket (final o) 1)
  ≠ Some (UserMeta "d2" "A" (registration_message "d2" "A")) ∧
  count_of (docs (final o)) "d2" "A" = 0 ∧
  count_of (docs (final o)) "d2" "A" ≠ count_of (docs st) "d2" "A" + 1.
Proof. repeat split; try reflexivity; vm_compute; discriminate. Qed.

(** C10, amended. After any run of the server, a tracked, registered session
    whose document is not locked sends a registration message for another
    document: the attachment is overwritten with the new pair and the new
    pair's count goes up by one, while the entry of the document it was
    attached to is left as it was, then and also when the session closes (the
    close releases the new pair only); and whatever happens afterwards, the
    closing of every session included, the old record stays with a count of
    at least 1. *)
Theorem reregistration_leaks (es0 : list event) (c : nat) (meta : userMeta_t)
    (msg : json) (d2 u2 : string) (reason : Z) (es : list event) :
  let st := (run es0 initial).1 in
  let o1 := on_message c (Wellformed msg) st in
  let o2 := step (Close c reason) (final o1) in
  valid_run es0 initial = true →
  c ∈ clients st →
  userMeta (socket st c) = Some meta →
  is_locked st (docId meta) = false →
  registers_as msg d2 u2 →
  d2 ≠ docId meta →
  valid_run es (final o1) = true →
  userMeta (socket (final o1) c) = Some (UserMeta d2 u2 msg) ∧
  count_of (docs (final o1)) d2 u2 = count_of (docs st) d2 u2 + 1 ∧
  docs (final o1) !! docId meta = docs st !! docId meta ∧
  docs (final o2) !! docId meta = docs st !! docId meta ∧
  1 ≤ count_of (docs (run es (final o1)).1) (docId meta) (userId meta).
Proof.
  intros st o1 o2 Hvalid0 Hc Hmeta Hl Hreg Hne Hvalid.
  destruct (run_invariant es0 initial invariant_initial Hvalid0) as [Hinv _].
  fold st in Hinv. subst o2. revert Hvalid. subst o1.
  rewrite (on_message_unlocked c _ meta), (dispatch_registration c msg d2 u2),
    (registration_branch_eq c msg d2 u2) by done.
  cbn [final step]. intros Hvalid. rewrite bind_modify.
  rewrite (on_close_registered c reason (UserMeta d2 u2 msg))
    by apply socket_registered_eq.
  assert (docId meta ≠ d2) as Hne' by done.
  split; [apply socket_registered_eq|].
  split; [cbn [registered set_userMeta set_docs docs]; rewrite count_of_register;
          by rewrite bool_decide_eq_true_2|].
  split; [by apply register_lookup_ne|].
  split.
  { cbn [final docId userId set_docs untrack registered set_userMeta docs].
    by rewrite release_lookup_ne, register_lookup_ne. }
  pose proof (run_surplus es (registered c msg d2 u2 st) (docId meta) (userId meta)
                (invariant_registered c msg d2 u2 st Hinv) Hvalid) as Hrun.
  pose proof (open_sessions_nonneg (run es (registered c msg d2 u2 st)).1
                (docId meta) (userId meta)) as Hopen.
  pose proof (inv_sessions st Hinv (docId meta) (userId meta)) as Hses.
  assert ((docId meta, userId meta) ≠ (d2, u2)) as Hpair by congruence.
  unfold surplus in Hrun.
  rewrite (open_sessions_registered_other c msg d2 u2 st) in Hrun
    by (try done; apply (inv_nodup st Hinv)).
  cbn [registered set_userMeta set_docs docs] in Hrun.
  rewrite count_of_register, bool_decide_eq_false_2 in Hrun by done.
  assert (attached_to st (docId meta) (userId meta) c = true) as Hatt
    by (unfold attached_to; rewrite Hmeta; by rewrite !String.eqb_refl).
  rewrite Hatt in Hrun. lia.
Qed.

Lemma reregistration_leaks_witness :
  valid_run one_tab initial = true ∧
  1%nat ∈ clients (after one_tab) ∧
  userMeta (socket (after one_tab) 1)
  = Some (UserMeta "d1" "A" (registration_message "d1" "A")) ∧
  is_locked (after one_tab) "d1" = false ∧
  registers_as (registration_message "d2" "A") "d2" "A" ∧
  "d2" ≠ "d1" ∧
  let o1 := on_message 1 (ann "d2") (after one_tab) in
  valid_run [Close 1 1000] (final o1) = true ∧
  clients (run [Close 1 1000] (final o1)).1 = [] ∧
  1 ≤ count_of (docs (run [Close 1 1000] (final o1)).1) "d1" "A".
Proof.
  split; [reflexivity|]. split; [vm_compute; left|]. split; [reflexivity|].
  split; [reflexivity|]. split; [repeat split|]. split; [discriminate|].
  split; [reflexivity|]. split; [reflexivity|].
  refine (proj2 (proj2 (proj2 (proj2
    (reregistration_leaks one_tab 1
       (UserMeta "d1" "A" (registration_message "d1" "A"))
       (registration_message "d2" "A") "d2" "A" 1000 [Close 1 1000]
       eq_refl _ eq_refl eq_refl
       (conj eq_refl (conj (conj eq_refl eq_refl) (conj eq_refl eq_refl)))
       _ eq_refl))))).
  - vm_compute. left.
  - discriminate.
Defined.

(** The leak in a run: the only session of user A registers on d1, then on
    d2, and closes; the record on d1 stays, with count 1, though no session
    is tracked any more. *)
Example reregistration_scenario :
  let st := after (one_tab ++ [Message 1 (ann "d2"); Close 1 1000]) in
  clients st = [] ∧ count_of (docs st) "d1" "A" = 1 ∧ count_of (docs st) "d2" "A" = 0.
Proof. vm_compute. done. Qed.

(** Unlocking a document that was never locked leaves the lock registry as it
    was and still broadcasts the unlock message. *)
Example unlock_never_locked :
  let st := after one_tab in
  let o := post_unlock "d1" (JArr [JStr "A"]) st in
  locked (final o) = locked st ∧
  trace o = [Send 1 (MsgUnlock (JArr [JStr "A"]));
             Info (DocumentUnlocked "d1"); Respond "d1 was unlocked."].
Proof. split; reflexivity. Qed.

(** * Further properties of the handlers *)

(** ** Every case of the message handler *)

Lemma dispatch_cases c p st :
  (∃ raw, p = Malformed raw ∧ dispatch c p st = Outcome (Throw ReferenceError) st [])
  ∨ (p = Wellformed JNull ∧ dispatch c p st = Outcome (Throw TypeError) st [])
  ∨ (∃ msg, p = Wellformed msg ∧ msg ≠ JNull ∧
            truthy (property msg "registration") = false ∧
            dispatch c p st = Outcome (Normal tt) st [Push c (Some msg)])
  ∨ (∃ msg d u, p = Wellformed msg ∧ registers_as msg d u ∧
                dispatch c p st = registration_branch c msg st)
  ∨ (∃ msg, p = Wellformed msg ∧ truthy (property msg "registration") = true ∧
            dispatch c p st = Outcome Unsupported st []).
Proof.
  destruct p as [raw|msg]; [left; by exists raw|]. right.
  assert (msg = JNull ∨ msg ≠ JNull) as [->|Hnull]
    by (destruct msg; (by left) || (by right)); [by left|]. right.
  destruct (truthy (property msg "registration")) eqn:Ht.
  - right. destruct (key_of_cases (property msg "docId")) as [[d [Hd Hd']]|Hd].
    + destruct (key_of_cases (property msg "userId")) as [[u [Hu Hu']]|Hu].
      * left. exists msg, d, u. split; [done|]. split; [done|].
        by apply (dispatch_registration c msg d u).
      * right. exists msg. split; [done|]. split; [done|].
        unfold dispatch. cbn [JSON_parse]. rewrite member_eq, bind_ret, Ht by done.
        unfold registration_branch. rewrite !member_eq, !bind_ret, Hd by done.
        cbn [key_of]. rewrite Hd', bind_ret, Hu. reflexivity.
    + right. exists msg. split; [done|]. split; [done|].
      unfold dispatch. cbn [JSON_parse]. rewrite member_eq, bind_ret, Ht by done.
      unfold registration_branch. rewrite !member_eq, !bind_ret, Hd by done.
      reflexivity.
  - left. exists msg. do 3 (split; [done|]). by apply dispatch_other.
Qed.

Lemma on_message_gated c p st :
  gated st c = true →
  ∃ meta, userMeta (socket st c) = Some meta ∧
          on_message c p st
          = Outcome (Normal tt) st (map (λ c', Send c' MsgLock) (audience st (docId meta))).
Proof.
  unfold gated. destruct (userMeta (socket st c)) as [meta|] eqn:Hm; [|done].
  intros Hl. exists meta. split; [done|]. by apply on_message_locked.
Qed.

Lemma on_message_not_gated c p st :
  gated st c = false → on_message c p st = dispatch c p st.
Proof.
  unfold gated. destruct (userMeta (socket st c)) as [meta|] eqn:Hm.
  - intros Hl. by apply (on_message_unlocked c p meta).
  - intros _. by apply on_message_unregistered.
Qed.

(** The message handler either leaves the state as it is, or runs the
    registration branch on a registration message. *)
Lemma on_message_final c p st :
  final (on_message c p st) = st
  ∨ ∃ msg d u, p = Wellformed msg ∧ registers_as msg d u ∧ gated st c = false ∧
               on_message c p st = registration_branch c msg st.
Proof.
  destruct (gated st c) eqn:Hg.
  - left. destruct (on_message_gated c p st Hg) as (meta & _ & ->). done.
  - rewrite on_message_not_gated by done.
    destruct (dispatch_cases c p st)
      as [(raw & _ & ->)|[[_ ->]|[(msg & _ & _ & _ & ->)|[(msg & d & u & Hp & Hr & ->)|(msg & _ & _ & ->)]]]];
      try (by left).
    right. by exists msg, d, u.
Qed.

(** ** The control endpoints in closed form *)

Lemma post_reload_eq id body st :
  post_reload id body st =
  Outcome (Normal tt) st
    (map (λ c, Send c (MsgReload body)) (audience st id)
     ++ [Info (DocumentReloaded id); Respond (id +:+ " was reloaded.")]).
Proof. unfold post_reload. by rewrite bind_broadcast, bind_emit. Qed.

Lemma post_lock_eq id st :
  post_lock id st =
  Outcome (Normal tt) (set_locked (<[id := true]>) st)
    (map (λ c, Send c MsgLock) (audience st id)
     ++ [Info (DocumentLocked id); Respond (id +:+ " was locked.")]).
Proof. unfold post_lock. by rewrite bind_modify, bind_broadcast, bind_emit. Qed.

Lemma post_unlock_eq id body st :
  post_unlock id body st =
  Outcome (Normal tt) (set_locked (delete id) st)
    (map (λ c, Send c (MsgUnlock body)) (audience st id)
     ++ [Info (DocumentUnlocked id); Respond (id +:+ " was unlocked.")]).
Proof. unfold post_unlock. by rewrite bind_modify, bind_broadcast, bind_emit. Qed.

Lemma post_redirect_eq id r st :
  post_redirect id r st =
  Outcome (Normal tt) st
    (map (λ c, Send c (MsgRedirect r)) (audience st id)
     ++ [Info (DocumentRedirect id r); Respond (id +:+ " was redirected to " +:+ r)]).
Proof. unfold post_redirect. by rewrite bind_broadcast, bind_emit. Qed.

Lemma post_delete_eq id r st :
  post_delete id r st =
  Outcome (Normal tt) st
    (map (λ c, Send c (MsgDelete r)) (audience st id)
     ++ [Info (DocumentDelete id r);
         Respond (id +:+ " was deleted and redirected to " +:+ r)]).
Proof. unfold post_delete. by rewrite bind_broadcast, bind_emit. Qed.

Lemma step_close_registered c reason meta st :
  userMeta (socket st c) = Some meta →
  step (Close c reason) st =
  let st' := set_docs (release (docId meta) (userId meta)) (untrack c st) in
  Outcome (Normal tt) st'
    (Info (ConnectionClosed (Some (docId meta, userId meta)) reason)
     :: map (λ c', Send c' (MsgMeta (docs st' !! docId meta)))
          (audience (untrack c st) (docId meta))
     ++ [Push c None; EmitClose c]).
Proof.
  intros Hm. cbn [step]. rewrite bind_modify.
  by rewrite (on_close_registered c reason meta).
Qed.

Lemma step_close_unregistered c reason st :
  userMeta (socket st c) = None →
  step (Close c reason) st =
  Outcome (Normal tt) (untrack c st)
    [Info (ConnectionClosed None reason); Push c None; EmitClose c].
Proof. intros Hm. cbn [step]. rewrite bind_modify. by rewrite on_close_unregistered. Qed.

Lemma registration_outcome c msg d u st :
  registers_as msg d u →
  registration_branch c msg st =
  Outcome (Normal tt) (registered c msg d u st)
    (Info (UserRegistered d u)
     :: map (λ c', Send c' (MsgMeta (docs (registered c msg d u st) !! d)))
          (audience (registered c msg d u st) d)
     ++ (if is_locked st d then [Send c MsgLock] else [])).
Proof. intros Hr. by rewrite (registration_branch_eq c msg d u). Qed.

(** ** What each event can change *)

(** X1. An event changes the lock registry only if it is a lock or an unlock
    request, the presence registry only if it is a message or a close, the
    list of tracked sockets only if it is a connection or a close, and the
    socket objects only if it is a connection, a transport change or a
    message. *)
Theorem step_frame (e : event) (st : server) :
  let st' := final (step e st) in
  match e with PostLock _ | PostUnlock _ _ => True | _ => locked st' = locked st end ∧
  match e with Message _ _ | Close _ _ => True | _ => docs st' = docs st end ∧
  match e with Connection _ | Close _ _ => True | _ => clients st' = clients st end ∧
  match e with
  | Connection _ | Transport _ _ _ | Message _ _ => True
  | _ => sockets st' = sockets st
  end.
Proof.
  destruct e as [c|c s fails|c p|c reason|c chunk|id body|id|id body|id r|id r]; cbn zeta.
  - done.
  - done.
  - cbn [step].
    destruct (on_message_final c p st) as [->|(msg & d & u & _ & Hr & _ & ->)]; [done|].
    by rewrite (registration_outcome c msg d u).
  - destruct (userMeta (socket st c)) as [meta|] eqn:Hm.
    + by rewrite (step_close_registered c reason meta).
    + by rewrite step_close_unregistered.
  - cbn [step]. by rewrite _write_eq.
  - cbn [step]. by rewrite post_reload_eq.
  - cbn [step]. by rewrite post_lock_eq.
  - cbn [step]. by rewrite post_unlock_eq.
  - cbn [step]. by rewrite post_redirect_eq.
  - cbn [step]. by rewrite post_delete_eq.
Qed.

(** X2. An event leaves the presence record of a pair [(d, u)] as it was
    unless it is a registration message for that very pair that passes the
    lock check, or the close of a session attached to that very pair. *)
Theorem record_changes_only_by (e : event) (st : server) (d u : string) :
  record_of (docs (final (step e st))) d u = record_of (docs st) d u
  ∨ (∃ c msg, e = Message c (Wellformed msg) ∧ registers_as msg d u ∧ gated st c = false)
  ∨ (∃ c reason meta, e = Close c reason ∧ userMeta (socket st c) = Some meta ∧
                      docId meta = d ∧ userId meta = u).
Proof.
  pose proof (step_frame e st) as (_ & Hdocs & _).
  destruct e as [c|c s fails|c p|c reason|c chunk|id body|id|id body|id r|id r];
    try (left; by rewrite Hdocs).
  - cbn [step].
    destruct (on_message_final c p st) as [->|(msg & d0 & u0 & -> & Hr & Hg & ->)];
      [by left|].
    rewrite (registration_outcome c msg d0 u0) by done.
    cbn [final registered set_userMeta set_docs docs].
    destruct (decide ((d, u) = (d0, u0))) as [[= -> ->]|Hne].
    + right; left. by exists c, msg.
    + left. by apply record_of_register_ne.
  - destruct (userMeta (socket st c)) as [meta|] eqn:Hm.
    + rewrite (step_close_registered c reason meta) by done.
      cbn [final set_docs untrack docs].
      destruct (decide ((d, u) = (docId meta, userId meta))) as [[= -> ->]|Hne].
      * right; right. by exists c, reason, meta.
      * left. by apply record_of_release_ne.
    + left. by rewrite step_close_unregistered.
Qed.




(** X4. While a presence record exists, an event never changes its display
    metadata (name, url, gravatar): only the first registration of a pair
    sets them, and a later registration with other metadata changes the count
    alone. The count moves by at most one per event. *)
Theorem display_metadata_fixed (e : event) (st : server) (d u : string) (r r' : presence) :
  record_of (docs st) d u = Some r →
  record_of (docs (final (step e st))) d u = Some r' →
  display r' = display r ∧
  (count r' = count r ∨ count r' = count r + 1 ∨ count r' = count r - 1).
Proof.
  intros Hr Hr'.
  destruct (record_changes_only_by e st d u)
    as [Heq|[(c & msg & -> & Hreg & Hg)|(c & reason & meta & -> & Hm & <- & <-)]].
  - rewrite Heq, Hr in Hr'. injection Hr' as <-. by split; [|left].
  - cbn [step] in Hr'. rewrite on_message_not_gated, (dispatch_registration c msg d u),
      (registration_outcome c msg d u) in Hr' by done.
    cbn [final registered set_userMeta set_docs docs] in Hr'.
    rewrite record_of_register_eq, Hr in Hr'. injection Hr' as <-.
    split; [done|]. right; left. done.
  - rewrite (step_close_registered c reason meta) in Hr' by done.
    cbn [final set_docs untrack docs] in Hr'.
    rewrite record_of_release_eq, Hr in Hr'.
    destruct (count r - 1 =? 0); [done|]. injection Hr' as <-.
    split; [done|]. right; right. simpl. lia.
Qed.

Lemma display_metadata_fixed_witness :
  let e := Message 2 (Wellformed (JObj [("registration", JBool true);
             ("docId", JStr "d1"); ("userId", JStr "A"); ("userName", JStr "Bob")])) in
  let st := after (one_tab ++ [Connection 2]) in
  ∃ r r', record_of (docs st) "d1" "A" = Some r ∧
          record_of (docs (final (step e st))) "d1" "A" = Some r' ∧
          name r' = Some (JStr "Ann") ∧ count r' = 2 ∧ display r' = display r.
Proof.
  intros e st.
  exists (Presence (Some (JStr "Ann")) (Some (JStr "/ann")) 1 (Some (JStr "g"))),
         (Presence (Some (JStr "Ann")) (Some (JStr "/ann")) 2 (Some (JStr "g"))).
  split; [reflexivity|]. split; [reflexivity|]. split; [reflexivity|].
  split; [reflexivity|].
  exact (proj1 (display_metadata_fixed e st "d1" "A" _ _ eq_refl eq_refl)).
Defined.

(** ** What is sent, and what is forwarded *)

Lemma audience_untrack_meta c st d x :
  x ∈ audience (untrack c st) d → is_Some (userMeta (socket st x)).
Proof. intros (_ & meta & Hm & _)%elem_of_audience. by exists meta. Qed.

(** X5. Whatever the event, a message is sent to a socket only if the socket
    has [userMeta] once the handler is done, or the message is a record that
    the engine wrote to that socket's own stream: a session that has not
    registered is never sent a presence, lock, unlock, reload, redirect or
    delete message. *)
Theorem control_messages_reach_registered_only (e : event) (st : server)
    (c : nat) (m : message) :
  Send c m ∈ trace (step e st) →
  (∃ chunk, e = EngineWrite c chunk ∧ m = MsgChunk chunk)
  ∨ is_Some (userMeta (socket (final (step e st)) c)).
Proof.
  assert (∀ st0 d m0 tail,
    Send c m ∈ map (λ c', Send c' m0) (audience st0 d) ++ tail →
    Send c m ∈ tail ∨ is_Some (userMeta (socket st0 c))) as Hsends.
  { intros st0 d m0 tail [Hin|Hin]%elem_of_app; [right|by left].
    apply elem_of_sends in Hin as [_ (_ & meta & Hm & _)%elem_of_audience].
    by exists meta. }
  destruct e as [c0|c0 s fails|c0 p|c0 reason|c0 chunk|id body|id|id body|id r|id r];
    cbn [step].
  - intros H. by apply elem_of_nil in H.
  - intros H. by apply elem_of_nil in H.
  - destruct (gated st c0) eqn:Hg.
    + destruct (on_message_gated c0 p st Hg) as (meta & _ & ->). cbn [trace final].
      intros [_ (_ & meta' & Hm & _)%elem_of_audience]%elem_of_sends.
      right. by exists meta'.
    + rewrite on_message_not_gated by done.
      destruct (dispatch_cases c0 p st)
        as [(raw & _ & ->)|[[_ ->]|[(msg & _ & _ & _ & ->)|[(msg & d & u & _ & Hr & ->)|(msg & _ & _ & ->)]]]];
        cbn [trace final]; try (intros H; not_in_trace H).
      rewrite (registration_outcome c0 msg d u) by done. cbn [trace final].
      intros [[=]|Hin]%elem_of_cons. right.
      apply Hsends in Hin as [Hin|Hin]; [|done].
      destruct (is_locked st d); [|by apply elem_of_nil in Hin].
      apply list_elem_of_singleton in Hin as [= -> _].
      rewrite socket_registered_eq. by eexists.
  - destruct (userMeta (socket st c0)) as [meta|] eqn:Hm.
    + rewrite bind_modify, (on_close_registered c0 reason meta) by done.
      cbn [trace final]. intros [[=]|Hin]%elem_of_cons. right.
      apply Hsends in Hin as [Hin|Hin]; [not_in_trace Hin|done].
    + rewrite bind_modify, on_close_unregistered by done. cbn [trace].
      intros H. not_in_trace H.
  - rewrite _write_eq. cbn [trace final]. intros Hin. left. exists chunk.
    destruct (bool_decide (state _ ≠ _)); simpl in Hin.
    + apply elem_of_cons in Hin as [[= -> ->]|Hin]; [done|not_in_trace Hin].
    + not_in_trace Hin.
  - rewrite post_reload_eq. cbn [trace final]. intros Hin. right.
    apply Hsends in Hin as [Hin|Hin]; [not_in_trace Hin|done].
  - rewrite post_lock_eq. cbn [trace final]. intros Hin. right.
    apply Hsends in Hin as [Hin|Hin]; [not_in_trace Hin|done].
  - rewrite post_unlock_eq. cbn [trace final]. intros Hin. right.
    apply Hsends in Hin as [Hin|Hin]; [not_in_trace Hin|done].
  - rewrite post_redirect_eq. cbn [trace final]. intros Hin. right.
    apply Hsends in Hin as [Hin|Hin]; [not_in_trace Hin|done].
  - rewrite post_delete_eq. cbn [trace final]. intros Hin. right.
    apply Hsends in Hin as [Hin|Hin]; [not_in_trace Hin|done].
Qed.

Lemma control_messages_reach_registered_only_witness :
  Send 1 MsgLock ∈ trace (step (PostLock "d1") (after (one_tab ++ [Connection 2]))) ∧
  is_Some (userMeta (socket (final (step (PostLock "d1")
                                      (after (one_tab ++ [Connection 2])))) 1)).
Proof.
  assert (Send 1 MsgLock
          ∈ trace (step (PostLock "d1") (after (one_tab ++ [Connection 2])))) as Hin
    by (vm_compute; left).
  split; [exact Hin|].
  destruct (control_messages_reach_registered_only _ _ _ _ Hin)
    as [(chunk & [=] & _)|H]; exact H.
Defined.

(** X6. The message handler pushes a value to the engine's stream exactly
    when the lock check lets the session through and the payload parses to a
    value other than [null] without a truthy registration member; what is
    pushed is that parsed value, on the sender's own stream. A registration
    message, a payload of a locked session and the end-of-stream signal are
    never pushed by the message handler. *)
Theorem forwarded_to_engine (c : nat) (p : payload) (st : server)
    (c' : nat) (x : option json) :
  Push c' x ∈ trace (on_message c p st) ↔
  c' = c ∧ gated st c = false ∧
  ∃ msg, x = Some msg ∧ p = Wellformed msg ∧ msg ≠ JNull ∧
         truthy (property msg "registration") = false.
Proof.
  destruct (gated st c) eqn:Hg.
  { destruct (on_message_gated c p st Hg) as (meta & _ & ->). cbn [trace].
    split; [intros H; by apply no_push_in_sends in H|by intros (_ & [=] & _)]. }
  rewrite on_message_not_gated by done.
  destruct (dispatch_cases c p st)
    as [(raw & -> & ->)|[[-> ->]|[(msg & -> & Hn & Ht & ->)|[(msg & d & u & -> & Hr & ->)|(msg & -> & Ht & ->)]]]];
    cbn [trace].
  - split; [intros H; by apply elem_of_nil in H|by intros (_ & _ & msg & _ & [=] & _)].
  - split; [intros H; by apply elem_of_nil in H|].
    by intros (_ & _ & msg & _ & [= <-] & Hn & _).
  - split.
    + intros [= -> ->]%list_elem_of_singleton. do 2 (split; [done|]). by exists msg.
    + intros (-> & _ & msg' & -> & [= <-] & _). by apply list_elem_of_singleton.
  - rewrite (registration_outcome c msg d u) by done. cbn [trace]. split.
    + intros [[=]|[Hin|Hin]%elem_of_app]%elem_of_cons.
      * by apply no_push_in_sends in Hin.
      * destruct (is_locked st d); not_in_trace Hin.
    + intros (_ & _ & msg' & _ & [= <-] & _ & Ht). destruct Hr as (Ht' & _). congruence.
  - split; [intros H; by apply elem_of_nil in H|].
    intros (_ & _ & msg' & _ & [= <-] & _ & Ht'). congruence.
Qed.





(** ** Registration and close on the registry *)

(** X9. A registration that passes the lock check, from a tracked socket:
    the snapshot it broadcasts is the document's presence map after the
    update, which holds the registering user with the count raised by one (1
    for a new record); the registering socket itself is sent it, and no other
    presence snapshot is sent. *)
Theorem registration_snapshot (st : server) (c : nat) (msg : json) (d u : string) :
  gated st c = false →
  registers_as msg d u →
  c ∈ clients st →
  let o := on_message c (Wellformed msg) st in
  ∃ users r,
    docs (final o) !! d = Some users ∧ users !! u = Some r ∧
    count r = count_of (docs st) d u + 1 ∧
    Send c (MsgMeta (Some users)) ∈ trace o ∧
    ∀ c' us, Send c' (MsgMeta us) ∈ trace o → us = Some users.
Proof.
  intros Hg Hr Hc o. subst o.
  rewrite on_message_not_gated, (dispatch_registration c msg d u),
    (registration_outcome c msg d u) by done.
  cbn [final trace].
  pose proof (record_of_register_eq d u (property msg "userName") (property msg "userUrl")
                (property msg "userGravatar") (docs st)) as Hrec.
  change (register d u (property msg "userName") (property msg "userUrl")
            (property msg "userGravatar") (docs st))
    with (docs (registered c msg d u st)) in Hrec.
  unfold record_of in Hrec.
  destruct (docs (registered c msg d u st) !! d) as [users|] eqn:Hd; [|done].
  simpl in Hrec. eexists users, _. split; [done|]. split; [exact Hrec|]. split.
  - unfold count_of, record_of.
    destruct (docs st !! d ≫= λ users0 : users_map, users0 !! u); simpl; lia.
  - split.
    + right. apply elem_of_app. left. apply elem_of_sends. split; [done|].
      apply elem_of_audience. split; [done|].
      exists (UserMeta d u msg). split; [apply socket_registered_eq|done].
    + intros c' us [[=]|[Hin|Hin]%elem_of_app]%elem_of_cons.
      * by apply elem_of_sends in Hin as [[= ->] _].
      * destruct (is_locked st d); not_in_trace Hin.
Qed.

Lemma registration_snapshot_witness :
  gated (after (one_tab ++ [Connection 2])) 2 = false ∧
  registers_as (registration_message "d1" "A") "d1" "A" ∧
  2%nat ∈ clients (after (one_tab ++ [Connection 2])) ∧
  ∃ users r,
    docs (final (on_message 2 (ann "d1") (after (one_tab ++ [Connection 2])))) !! "d1"
    = Some users ∧ users !! "A" = Some r ∧
    count r = count_of (docs (after (one_tab ++ [Connection 2]))) "d1" "A" + 1.
Proof.
  split; [reflexivity|]. split; [repeat split|].
  assert (2%nat ∈ clients (after (one_tab ++ [Connection 2]))) as Hc
    by (vm_compute; right; left).
  split; [exact Hc|].
  destruct (registration_snapshot (after (one_tab ++ [Connection 2])) 2
              (registration_message "d1" "A") "d1" "A" eq_refl
              (conj eq_refl (conj (conj eq_refl eq_refl) (conj eq_refl eq_refl))) Hc)
    as (users & r & Hd & Hu & Hcount & _).
  by exists users, r.
Defined.

Lemma release_register (d u : string) nm ur gr (ds : docs_map) :
  (∀ users, ds !! d = Some users → users ≠ ∅) →
  (∀ r, record_of ds d u = Some r → count r ≠ 0) →
  release d u (register d u nm ur gr ds) = ds.
Proof.
  intros Hne Hpos. unfold record_of in Hpos. unfold register, release.
  destruct (ds !! d) as [users|] eqn:Hd; simpl.
  - rewrite Hd; simpl. simpl in Hpos. destruct (users !! u) as [r|] eqn:Hu.
    + rewrite lookup_insert_eq, lookup_insert_eq. simpl.
      specialize (Hpos r eq_refl).
      destruct (count r + 1 - 1 =? 0) eqn:Hz; [lia|].
      rewrite !insert_insert_eq.
      replace (Presence (name r) (url r) (count r + 1 - 1) (gravatar r)) with r
        by (destruct r; simpl; f_equal; lia).
      rewrite (insert_id users) by done. by apply insert_id.
    + rewrite lookup_insert_eq, lookup_insert_eq. simpl.
      rewrite delete_insert_id by done.
      rewrite bool_decide_eq_false_2
        by (apply map_size_non_empty_iff; by apply Hne).
      rewrite insert_insert_eq. by apply insert_id.
  - rewrite lookup_insert_eq; simpl. rewrite lookup_empty.
    rewrite lookup_insert_eq, lookup_insert_eq. simpl.
    rewrite delete_insert_id by apply lookup_empty.
    rewrite bool_decide_eq_true_2 by apply map_size_empty.
    rewrite !delete_insert_eq. by apply delete_id.
Qed.

(** X10. Opening and closing a tab is a round trip on the presence registry:
    in a registry without empty document maps and zero counts (as the server
    keeps it), a registration that passes the lock check followed by the
    close of the same socket leaves the registry exactly as it was before the
    registration. *)
Theorem register_then_close_restores (st : server) (c : nat) (msg : json)
    (d u : string) (reason : Z) :
  (∀ users, docs st !! d = Some users → users ≠ ∅) →
  (∀ r, record_of (docs st) d u = Some r → count r ≠ 0) →
  gated st c = false →
  registers_as msg d u →
  let o1 := on_message c (Wellformed msg) st in
  let o2 := on_close c reason (final o1) in
  docs (final o2) = docs st ∧ locked (final o2) = locked st.
Proof.
  intros Hne Hpos Hg Hr o1 o2. subst o2 o1.
  rewrite on_message_not_gated, (dispatch_registration c msg d u),
    (registration_outcome c msg d u) by done.
  cbn [final].
  rewrite (on_close_registered c reason (UserMeta d u msg)) by apply socket_registered_eq.
  cbn [final docId userId set_docs registered set_userMeta docs locked].
  split; [by apply release_register|done].
Qed.

Lemma register_then_close_restores_witness :
  let st := after (one_tab ++ [Connection 2]) in
  (∀ users, docs st !! "d1" = Some users → users ≠ ∅) ∧
  (∀ r, record_of (docs st) "d1" "A" = Some r → count r ≠ 0) ∧
  gated st 2 = false ∧
  registers_as (registration_message "d1" "A") "d1" "A" ∧
  docs (final (on_close 2 1000 (final (on_message 2 (ann "d1") st)))) = docs st.
Proof.
  intros st.
  assert (∀ users, docs st !! "d1" = Some users → users ≠ ∅) as Hne.
  { intros users Hd Hempty. subst users. vm_compute in Hd. discriminate Hd. }
  assert (∀ r, record_of (docs st) "d1" "A" = Some r → count r ≠ 0) as Hpos.
  { intros r Hrec Hz. vm_compute in Hrec. injection Hrec as <-. discriminate Hz. }
  split; [exact Hne|]. split; [exact Hpos|]. split; [reflexivity|].
  split; [repeat split|].
  exact (proj1 (register_then_close_restores st 2 (registration_message "d1" "A")
                  "d1" "A" 1000 Hne Hpos eq_refl
                  (conj eq_refl (conj (conj eq_refl eq_refl) (conj eq_refl eq_refl))))).
Defined.

Lemma register_alt d u nm ur gr (ds : docs_map) :
  register d u nm ur gr ds =
  <[d := <[u := from_option (bump 1) (Presence nm ur 1 gr)
                  ((default ∅ (ds !! d) : users_map) !! u)]>
           (default ∅ (ds !! d))]> ds.
Proof.
  unfold register. destruct (ds !! d) as [users|] eqn:Hd; simpl.
  - rewrite Hd; simpl. by destruct (users !! u).
  - rewrite lookup_insert_eq; simpl. rewrite lookup_empty; simpl.
    by rewrite insert_insert_eq.
Qed.

(** X11. Registrations for different pairs commute: whichever of two
    registrations for different (document, user) pairs updates the presence
    registry first, the registry that results is the same. *)
Theorem registrations_commute (d1 u1 d2 u2 : string) (nm1 ur1 gr1 nm2 ur2 gr2 : option json)
    (ds : docs_map) :
  (d1, u1) ≠ (d2, u2) →
  register d1 u1 nm1 ur1 gr1 (register d2 u2 nm2 ur2 gr2 ds)
  = register d2 u2 nm2 ur2 gr2 (register d1 u1 nm1 ur1 gr1 ds).
Proof.
  intros Hne. rewrite !(register_alt d1), !(register_alt d2).
  destruct (decide (d1 = d2)) as [->|Hd].
  - assert (u1 ≠ u2) as Hu by congruence.
    rewrite !lookup_insert_eq. simpl.
    rewrite (lookup_insert_ne _ u2 u1), (lookup_insert_ne _ u1 u2) by done.
    rewrite !insert_insert_eq. f_equal. by apply insert_insert_ne.
  - rewrite (lookup_insert_ne _ d2 d1), (lookup_insert_ne _ d1 d2) by done.
    by apply insert_insert_ne.
Qed.

Lemma registrations_commute_witness :
  ("d1", "A") ≠ ("d1", "B") ∧
  register "d1" "A" None None None (register "d1" "B" None None None ∅)
  = register "d1" "B" None None None (register "d1" "A" None None None ∅).
Proof.
  split; [discriminate|]. apply registrations_commute. discriminate.
Defined.

(** ** The lock registry and the control endpoints *)


(** X13. Every control endpoint returns normally in every state and for
    every document id, known or not; it calls [send] with its message on
    exactly the tracked sockets attached to the id, then logs and responds;
    it never touches the presence registry or the sockets, and reload,
    redirect and delete leave the whole state as it is. *)
Theorem endpoints_never_fail (e : event) (st : server) (id : string) (m : message) :
  endpoint_message e = Some (id, m) →
  let o := step e st in
  result o = Normal tt ∧
  docs (final o) = docs st ∧ sockets (final o) = sockets st ∧
  clients (final o) = clients st ∧
  (∀ c m', Send c m' ∈ trace o ↔
           m' = m ∧ c ∈ clients st ∧
           ∃ meta, userMeta (socket st c) = Some meta ∧ docId meta = id) ∧
  (∃ l text, trace o = map (λ c, Send c m) (audience st id) ++ [Info l; Respond text]) ∧
  match e with PostLock _ | PostUnlock _ _ => True | _ => final o = st end.
Proof.
  assert (∀ l text c m',
    Send c m' ∈ map (λ c, Send c m) (audience st id) ++ [Info l; Respond text] ↔
    m' = m ∧ c ∈ clients st ∧
    ∃ meta, userMeta (socket st c) = Some meta ∧ docId meta = id) as Hsends.
  { intros l text c m'. rewrite elem_of_app, elem_of_sends, elem_of_audience.
    split; [intros [H|H]; [done|not_in_trace H]|by left]. }
  destruct e as [c|c s fails|c p|c reason|c chunk|id0 body|id0|id0 body|id0 r|id0 r];
    try discriminate; intros [= -> <-]; cbn [step]; cbn zeta.
  - rewrite post_reload_eq. cbn [result final trace].
    do 4 (split; [done|]). split; [apply Hsends|]. split; [by eexists _, _|done].
  - rewrite post_lock_eq. cbn [result final trace].
    do 4 (split; [done|]). split; [apply Hsends|]. split; [by eexists _, _|done].
  - rewrite post_unlock_eq. cbn [result final trace].
    do 4 (split; [done|]). split; [apply Hsends|]. split; [by eexists _, _|done].
  - rewrite post_redirect_eq. cbn [result final trace].
    do 4 (split; [done|]). split; [apply Hsends|]. split; [by eexists _, _|done].
  - rewrite post_delete_eq. cbn [result final trace].
    do 4 (split; [done|]). split; [apply Hsends|]. split; [by eexists _, _|done].
Qed.

Lemma endpoints_never_fail_witness :
  endpoint_message (PostDelete "nowhere" "/home") = Some ("nowhere", MsgDelete "/home") ∧
  step (PostDelete "nowhere" "/home") (after two_tabs)
  = Outcome (Normal tt) (after two_tabs)
      [Info (DocumentDelete "nowhere" "/home");
       Respond "nowhere was deleted and redirected to /home"] ∧
  result (step (PostDelete "nowhere" "/home") (after two_tabs)) = Normal tt.
Proof.
  split; [reflexivity|]. split; [reflexivity|].
  exact (proj1 (endpoints_never_fail (PostDelete "nowhere" "/home") (after two_tabs)
                  "nowhere" (MsgDelete "/home") eq_refl)).
Defined.

Lemma gated_set_locked f st c :
  gated (set_locked f st) c
  = match userMeta (socket st c) with
    | Some meta => default false (f (locked st) !! docId meta)
    | None => false
    end.
Proof. reflexivity. Qed.



(** X15. The close of a registered session broadcasts one snapshot, the
    document's presence map after the release. That map is absent exactly
    when the document had no entry, or the closing session was the last
    connection (count 1) of the only user of the document; and it never lists
    the session's user with a count of 0. *)
Theorem close_snapshot (st : server) (c : nat) (reason : Z) (meta : userMeta_t) :
  userMeta (socket st c) = Some meta →
  let o := on_close c reason st in
  let d := docId meta in
  let u := userId meta in
  (∀ c' us, Send c' (MsgMeta us) ∈ trace o → us = docs (final o) !! d) ∧
  (docs (final o) !! d = None ↔
   docs st !! d = None ∨
   ∃ users r, docs st !! d = Some users ∧ users !! u = Some r ∧ count r = 1 ∧
              ∀ u', u' ≠ u → users !! u' = None) ∧
  (∀ r', record_of (docs (final o)) d u = Some r' → count r' ≠ 0 ∧
         ∃ r, record_of (docs st) d u = Some r ∧ count r' = count r - 1).
Proof.
  intros Hm o d u. subst o d u. rewrite (on_close_registered c reason meta) by done.
  cbn [final trace set_docs docs]. split; [|split].
  - intros c' us [[=]|[Hin|Hin]%elem_of_app]%elem_of_cons.
    + by apply elem_of_sends in Hin as [[= ->] _].
    + not_in_trace Hin.
  - unfold release. destruct (docs st !! docId meta) as [users|] eqn:Hd.
    2:{ rewrite Hd. split; [by left|done]. }
    destruct (users !! userId meta) as [r|] eqn:Hu.
    2:{ rewrite Hd. split; [done|]. intros [[=]|(users' & r & [= <-] & Hu' & _)]. congruence. }
    cbn zeta. cbn [count]. destruct (count r - 1 =? 0) eqn:Hz.
    + case_bool_decide as Hsz.
      * rewrite lookup_delete_eq. split; [|done]. intros _. right.
        exists users, r. do 2 (split; [done|]). split; [lia|].
        intros u' Hu'. apply (size_zero_lookup _ u') in Hsz.
        by rewrite lookup_delete_ne in Hsz.
      * rewrite lookup_insert_eq. split; [done|].
        intros [[=]|(users' & r0 & [= <-] & _ & _ & Hall)]. exfalso. apply Hsz.
        apply map_size_empty_iff, map_empty. intros u'.
        destruct (decide (u' = userId meta)) as [->|Hne].
        -- apply lookup_delete_eq.
        -- rewrite lookup_delete_ne by done. by apply Hall.
    + rewrite lookup_insert_eq. split; [done|].
      intros [[=]|(users' & r0 & [= <-] & Hu0 & Hone & _)].
      rewrite Hu in Hu0. injection Hu0 as <-. lia.
  - intros r'. rewrite record_of_release_eq.
    destruct (record_of (docs st) (docId meta) (userId meta)) as [r|]; [|done].
    destruct (count r - 1 =? 0) eqn:Hz; [done|]. intros [= <-]. simpl.
    split; [lia|]. exists r. split; [done|]. lia.
Qed.

Lemma close_snapshot_witness :
  userMeta (socket (after one_tab) 1)
  = Some (UserMeta "d1" "A" (registration_message "d1" "A")) ∧
  docs (final (on_close 1 1000 (after one_tab))) !! "d1" = None ∧
  ∃ users r, docs (after one_tab) !! "d1" = Some users ∧ users !! "A" = Some r ∧
             count r = 1 ∧ ∀ u', u' ≠ "A" → users !! u' = None.
Proof.
  split; [reflexivity|]. split; [reflexivity|].
  pose proof (close_snapshot (after one_tab) 1 1000
                (UserMeta "d1" "A" (registration_message "d1" "A")) eq_refl)
    as (_ & Hiff & _).
  destruct (proj1 Hiff eq_refl) as [Hnone|H]; [discriminate Hnone|exact H].
Defined.

(** ** The settings *)

(** X16. Debug mode is on unless SHAREJS_DEBUG is set to a non-empty text
    other than 'true' (so it is on by default and for the empty text). The
    handler that exits the process on an uncaught exception is installed
    exactly when a non-empty SHAREJS_SENTRY_DSN is set and debug mode is off;
    the reporter's client and its middleware are set up exactly when a
    non-empty DSN is set. *)
Theorem exit_hook_installed (env : env_map) :
  (debug (settings env) = false ↔
   ∃ v, env !! "SHAREJS_DEBUG" = Some v ∧ v ≠ "" ∧ v ≠ "true") ∧
  (PatchGlobal ∈ sentry_startup (settings env) ↔
   (∃ dsn, env !! "SHAREJS_SENTRY_DSN" = Some dsn ∧ dsn ≠ "") ∧
   debug (settings env) = false) ∧
  (∀ dsn, NewClient dsn ∈ sentry_startup (settings env) ↔
          env !! "SHAREJS_SENTRY_DSN" = Some dsn ∧ dsn ≠ "") ∧
  (∀ dsn, ExpressMiddleware dsn ∈ sentry_startup (settings env) ↔
          env !! "SHAREJS_SENTRY_DSN" = Some dsn ∧ dsn ≠ "").
Proof.
  unfold sentry_startup, settings; cbn [debug sentryDSN]. split; [|split; [|split]].
  - destruct (env !! "SHAREJS_DEBUG") as [v|]; simpl.
    + destruct (String.eqb_spec v "") as [->|Hv]; simpl.
      * split; [done|]. by intros (v & [= <-] & ? & _).
      * case_bool_decide as Ht.
        -- injection Ht as ->. split; [done|]. by intros (v & [= <-] & _ & ?).
        -- split; [|done]. intros _. exists v. do 2 (split; [done|]). congruence.
    + split; [done|]. by intros (v & [=] & _).
  - destruct (env !! "SHAREJS_SENTRY_DSN") as [dsn|]; simpl.
    + destruct (String.eqb_spec dsn "") as [->|Hd]; simpl.
      * split; [intros H; by apply elem_of_nil in H|]. by intros [(dsn & [= <-] & ?) _].
      * destruct (if env_truthy (env !! "SHAREJS_DEBUG")
                  then bool_decide (env !! "SHAREJS_DEBUG" = Some "true") else true); simpl.
        -- split; [intros H; not_in_trace H|by intros [_ ?]].
        -- split; [|intros _; right; left]. intros _. split; [by exists dsn|done].
    + split; [intros H; by apply elem_of_nil in H|]. by intros [(dsn & [=] & _) _].
  - intros dsn0. destruct (env !! "SHAREJS_SENTRY_DSN") as [dsn|]; simpl.
    + destruct (String.eqb_spec dsn "") as [->|Hd]; simpl.
      * split; [intros H; by apply elem_of_nil in H|]. by intros [[= <-] ?].
      * split.
        -- intros [[= ->]|Hin]%elem_of_cons; [done|].
           apply elem_of_app in Hin as [Hin|Hin]; [|not_in_trace Hin].
           destruct (negb _); not_in_trace Hin.
        -- intros [[= ->] _]. left.
    + split; [intros H; by apply elem_of_nil in H|]. by intros [[=] _].
  - intros dsn0. destruct (env !! "SHAREJS_SENTRY_DSN") as [dsn|]; simpl.
    + destruct (String.eqb_spec dsn "") as [->|Hd]; simpl.
      * split; [intros H; by apply elem_of_nil in H|]. by intros [[= <-] ?].
      * split.
        -- intros [[=]|Hin]%elem_of_cons.
           apply elem_of_app in Hin as [Hin|Hin].
           ++ destruct (negb _); not_in_trace Hin.
           ++ apply list_elem_of_singleton in Hin as [= ->]. done.
        -- intros [[= ->] _]. right. apply elem_of_app. right. left.
    + split; [intros H; by apply elem_of_nil in H|]. by intros [[=] _].
Qed.

(** * Further properties of runs *)














Lemma tally_eof_sends c m cs : tally (is_eof c) (map (λ c', Send c' m) cs) = 0.
Proof. induction cs as [|x cs IH]; [done|]. simpl. by rewrite IH. Qed.

Lemma closed_ext st st' c :
  (is_Some (sockets st' !! c) ↔ is_Some (sockets st !! c)) →
  (c ∈ clients st' ↔ c ∈ clients st) →
  closed st' c = closed st c.
Proof.
  intros Hs Hc. unfold closed. apply bool_decide_ext. by rewrite Hs, Hc.
Qed.

Lemma on_message_no_eof c0 p st c : tally (is_eof c) (trace (on_message c0 p st)) = 0.
Proof.
  destruct (gated st c0) eqn:Hg.
  { destruct (on_message_gated c0 p st Hg) as (meta & _ & ->). apply tally_eof_sends. }
  rewrite on_message_not_gated by done.
  destruct (dispatch_cases c0 p st)
    as [(raw & _ & ->)|[[_ ->]|[(msg & _ & _ & _ & ->)|[(msg & d & u & _ & Hr & ->)|(msg & _ & _ & ->)]]]];
    try done.
  rewrite (registration_outcome c0 msg d u) by done. cbn [trace tally is_eof].
  rewrite tally_app, tally_eof_sends. by destruct (is_locked st d).
Qed.

Lemma closed_connect c0 st c :
  sockets st !! c0 = None → closed (connect c0 st) c = closed st c.
Proof.
  intros Hfresh. unfold closed. destruct (decide (c = c0)) as [->|Hne].
  - rewrite !bool_decide_eq_false_2; [done| |].
    + rewrite Hfresh. by intros [[] _].
    + cbn [connect clients]. intros [_ Hc]. apply Hc, elem_of_app. right. left.
  - apply bool_decide_ext. cbn [connect sockets clients].
    rewrite lookup_insert_ne, elem_of_app, list_elem_of_singleton by done.
    split; intros [Hs Hc]; (split; [done|]); intros Hin; apply Hc; [by left|].
    by destruct Hin.
Qed.

Lemma closed_insert_socket st st' c0 x c :
  is_Some (sockets st !! c0) →
  sockets st' = <[c0 := x]> (sockets st) → clients st' = clients st →
  closed st' c = closed st c.
Proof.
  intros Hc0 Hs Hc. apply closed_ext; [|by rewrite Hc].
  rewrite Hs. destruct (decide (c = c0)) as [->|Hne].
  - rewrite lookup_insert_eq. split; [done|by eexists].
  - by rewrite lookup_insert_ne.
Qed.

Lemma closed_untrack c0 st c :
  c0 ∈ clients st → (∀ x, x ∈ clients st → is_Some (sockets st !! x)) →
  (if closed (untrack c0 st) c then 1 else 0)
  = (if closed st c then 1 else 0) + (if Nat.eqb c0 c then 1 else 0).
Proof.
  intros Hc0 Htr. unfold closed. cbn [untrack sockets clients].
  destruct (Nat.eqb_spec c0 c) as [->|Hne].
  - rewrite bool_decide_eq_true_2, bool_decide_eq_false_2; [done| |].
    + by intros [_ ?].
    + split; [by apply Htr|]. rewrite list_elem_of_filter. by intros [? _].
  - rewrite (bool_decide_ext _ (is_Some (sockets st !! c) ∧ c ∉ clients st)); [lia|].
    rewrite list_elem_of_filter. split; intros [Hs Hc]; (split; [done|]).
    + intros Hin. apply Hc. split; [congruence|done].
    + by intros [_ Hin].
Qed.

Lemma step_eof e st c :
  enabled e st = true → (∀ x, x ∈ clients st → is_Some (sockets st !! x)) →
  tally (is_eof c) (trace (step e st))
  = (if closed (final (step e st)) c then 1 else 0) - (if closed st c then 1 else 0).
Proof.
  intros Hen Htr.
  destruct e as [c0|c0 s fails|c0 p|c0 reason|c0 chunk|id body|id|id body|id r|id r];
    cbn [enabled step] in *.
  - apply bool_decide_eq_true in Hen.
    change (final (modify (connect c0) st)) with (connect c0 st).
    rewrite closed_connect by done. simpl. lia.
  - apply bool_decide_eq_true in Hen.
    change (final (modify (set_transport c0 s fails) st)) with (set_transport c0 s fails st).
    rewrite (closed_insert_socket st (set_transport c0 s fails st) c0 _ c Hen eq_refl eq_refl).
    simpl. lia.
  - apply bool_decide_eq_true in Hen. rewrite on_message_no_eof.
    destruct (on_message_final c0 p st) as [->|(msg & d & u & _ & Hr & _ & ->)]; [lia|].
    rewrite (registration_outcome c0 msg d u) by done. cbn [final].
    rewrite (closed_insert_socket st (registered c0 msg d u st) c0 _ c
               (Htr _ Hen) eq_refl eq_refl). lia.
  - apply bool_decide_eq_true in Hen.
    pose proof (closed_untrack c0 st c Hen Htr) as Hcl.
    destruct (userMeta (socket st c0)) as [meta|] eqn:Hm.
    + rewrite bind_modify, (on_close_registered c0 reason meta) by done.
      cbn [final trace tally is_eof].
      change (closed (set_docs (release (docId meta) (userId meta)) (untrack c0 st)) c)
        with (closed (untrack c0 st) c).
      rewrite tally_app, tally_eof_sends. cbn [tally is_eof]. lia.
    + rewrite bind_modify, on_close_unregistered by done.
      cbn [final trace tally is_eof]. lia.
  - rewrite _write_eq. cbn [final trace].
    destruct (bool_decide (state _ ≠ _)); simpl; lia.
  - rewrite post_reload_eq. cbn [final trace].
    rewrite tally_app, tally_eof_sends. simpl. lia.
  - rewrite post_lock_eq. cbn [final trace].
    change (closed (set_locked <[id:=true]> st) c) with (closed st c).
    rewrite tally_app, tally_eof_sends. simpl. lia.
  - rewrite post_unlock_eq. cbn [final trace].
    change (closed (set_locked (delete id) st) c) with (closed st c).
    rewrite tally_app, tally_eof_sends. simpl. lia.
  - rewrite post_redirect_eq. cbn [final trace].
    rewrite tally_app, tally_eof_sends. simpl. lia.
  - rewrite post_delete_eq. cbn [final trace].
    rewrite tally_app, tally_eof_sends. simpl. lia.
Qed.

Lemma run_eof es st c :
  invariant st → valid_run es st = true →
  tally (is_eof c) (run es st).2
  = (if closed (run es st).1 c then 1 else 0) - (if closed st c then 1 else 0).
Proof.
  revert st. induction es as [|e es IH]; intros st Hinv Hvalid; cbn [run fst snd];
    [simpl; lia|].
  cbn [valid_run] in Hvalid.
  apply andb_true_iff in Hvalid as [[Hen Hsup]%andb_true_iff Hvalid].
  rewrite tally_app, (step_eof e st c Hen (inv_tracked st Hinv)).
  rewrite IH; [lia| |done].
  apply (moves_invariant st); [done|by apply step_moves].
Qed.

(** X21. End-of-stream is signalled to the engine exactly once for every
    socket that has been closed and never for a socket that is still
    tracked: in every run the number of [push(null)] on a socket's stream is
    1 if the socket has been closed and 0 otherwise. *)
Theorem end_of_stream_once (es : list event) (c : nat) :
  valid_run es initial = true →
  tally (is_eof c) (run es initial).2 = (if closed (run es initial).1 c then 1 else 0) ∧
  tally (is_eof c) (run es initial).2 ≤ 1.
Proof.
  intros Hvalid. rewrite (run_eof es initial c invariant_initial Hvalid).
  change (closed initial c) with false. destruct (closed _ c); lia.
Qed.

Lemma end_of_stream_once_witness :
  valid_run (two_tabs ++ [Close 1 1000]) initial = true ∧
  tally (is_eof 1) (run (two_tabs ++ [Close 1 1000]) initial).2 = 1 ∧
  tally (is_eof 2) (run (two_tabs ++ [Close 1 1000]) initial).2 = 0.
Proof.
  split; [reflexivity|]. split.
  - exact (proj1 (end_of_stream_once (two_tabs ++ [Close 1 1000]) 1 eq_refl)).
  - exact (proj1 (end_of_stream_once (two_tabs ++ [Close 1 1000]) 2 eq_refl)).
Defined.

(** ** Isolation of documents, and what snapshots show *)

(** X22. Handling a session's message or close never sends anything to a
    socket attached to another document: every socket that is sent a
    message, the lock notice and the presence snapshots included, is
    attached to the document the session itself is attached to once the
    handler is done. *)
Theorem traffic_stays_in_document (st : server) (c : nat) (p : payload) (reason : Z)
    (c' : nat) (m : message) :
  (Send c' m ∈ trace (on_message c p st) →
   ∃ meta meta', userMeta (socket (final (on_message c p st)) c) = Some meta ∧
                 userMeta (socket (final (on_message c p st)) c') = Some meta' ∧
                 docId meta' = docId meta) ∧
  (Send c' m ∈ trace (on_close c reason st) →
   ∃ meta meta', userMeta (socket st c) = Some meta ∧
                 userMeta (socket (final (on_close c reason st)) c') = Some meta' ∧
                 docId meta' = docId meta).
Proof.
  split.
  - destruct (gated st c) eqn:Hg.
    + destruct (on_message_gated c p st Hg) as (meta & Hm & ->). cbn [trace final].
      intros [_ (_ & meta' & Hm' & Hd)%elem_of_audience]%elem_of_sends.
      by exists meta, meta'.
    + rewrite on_message_not_gated by done.
      destruct (dispatch_cases c p st)
        as [(raw & _ & ->)|[[_ ->]|[(msg & _ & _ & _ & ->)|[(msg & d & u & _ & Hr & ->)|(msg & _ & _ & ->)]]]];
        cbn [trace final]; try (intros H; not_in_trace H).
      rewrite (registration_outcome c msg d u) by done. cbn [trace final].
      intros [[=]|[Hin|Hin]%elem_of_app]%elem_of_cons.
      * apply elem_of_sends in Hin as [_ (_ & meta' & Hm' & Hd)%elem_of_audience].
        exists (UserMeta d u msg), meta'. by rewrite socket_registered_eq.
      * destruct (is_locked st d); [|by apply elem_of_nil in Hin].
        apply list_elem_of_singleton in Hin as [= -> _].
        exists (UserMeta d u msg), (UserMeta d u msg). by rewrite socket_registered_eq.
  - destruct (userMeta (socket st c)) as [meta|] eqn:Hm.
    + rewrite (on_close_registered c reason meta) by done. cbn [trace final].
      intros [[=]|[Hin|Hin]%elem_of_app]%elem_of_cons; [|not_in_trace Hin].
      apply elem_of_sends in Hin as [_ (_ & meta' & Hm' & Hd)%elem_of_audience].
      by exists meta, meta'.
    + rewrite on_close_unregistered by done. cbn [trace]. intros H. not_in_trace H.
Qed.

Lemma traffic_stays_in_document_witness :
  let st := after (two_tabs ++ [Connection 3; Message 3 (ann "d9")]) in
  let o := on_message 1 (ann "d1") st in
  Send 2 (MsgMeta (docs (final o) !! "d1")) ∈ trace o ∧
  ∃ meta meta', userMeta (socket (final o) 1) = Some meta ∧
                userMeta (socket (final o) 2) = Some meta' ∧
                docId meta' = docId meta.
Proof.
  intros st o.
  assert (Send 2 (MsgMeta (docs (final o) !! "d1")) ∈ trace o) as Hin
    by (vm_compute; right; right; left).
  split; [exact Hin|].
  exact (proj1 (traffic_stays_in_document st 1 (ann "d1") 0 2 _) Hin).
Defined.




